(** * Inference by enumeration over a discrete Bayesian network

    A shallow embedding of [src/Exercise-1.py]: the classes [Variable],
    [BayesianNetwork] and [InferenceByEnumeration].

    Conventions of the embedding.

    - Probabilities (Python and numpy floating point numbers) are idealised
      as exact rationals ([Q], kept in lowest terms so that results compare
      with [=]); their rounding is outside the model.
    - Python integers are [Z].  The numpy scalars met while a column index
      is computed are modelled as NumPy 2 computes them: [np.prod] of a list
      of ints is an int64 product that wraps around, a Python int multiplied
      by an int64 must fit in int64 ([OverflowError] otherwise), and the index
      is accumulated in an integer-valued float64, rounded to 53 bits.  The
      lists of cardinalities are lists of ints within int64.
    - Exceptions are values of [exn]; a call returns [Ok v] or [Raise e].
    - [Variable] defines neither [__eq__] nor [__hash__]: two instances are
      equal, and are the same dictionary key, exactly when they are the same
      object.  Every instance therefore carries its address [oid].
    - Dictionaries are association lists in insertion order, with unique keys
      maintained by [dict_set].
    - [print] calls that do not affect the result are omitted. *)

From Stdlib Require Import String Arith ZArith QArith Qabs Bool List Lia.
Import ListNotations.

Open Scope string_scope.
Open Scope list_scope.
Open Scope Z_scope.

(** ** Results and exceptions *)

Inductive exn : Type :=
  | TypeError
  | ValueError
  | KeyError
  | IndexError
  | AttributeError
  | ZeroDivisionError
  | OverflowError.

Inductive result (A : Type) : Type :=
  | Ok (a : A)
  | Raise (e : exn).

Arguments Ok {A} a.
Arguments Raise {A} e.

Definition bind {A B : Type} (r : result A) (k : A -> result B) : result B :=
  match r with
  | Ok a => k a
  | Raise e => Raise e
  end.

Notation "x <- r ;; k" := (bind r (fun x => k))
  (at level 61, r at next level, right associativity).

(** ** Numbers *)

Definition fadd (x y : Q) : Q := Qred (x + y).
Definition fmul (x y : Q) : Q := Qred (x * y).

(** [x / y] on Python floats: division by zero raises.  (On numpy scalars it
    yields nan or an infinity with a warning instead: [np_div] below.) *)
Definition fdiv (x y : Q) : result Q :=
  if Qeq_bool y 0 then Raise ZeroDivisionError else Ok (Qred (x / y)).

(** The product of a list of integers. *)
Definition zprod (l : list Z) : Z := fold_right Z.mul 1 l.

(** Signed 64-bit wrap-around. *)
Definition wrap64 (z : Z) : Z := (z + 2 ^ 63) mod 2 ^ 64 - 2 ^ 63.

Definition fits_int64 (z : Z) : bool := (- 2 ^ 63 <=? z) && (z <? 2 ^ 63).

(** The value of [np.prod(l)] for a list of ints within int64: the int64
    product, which wraps around silently; on the empty list the float 1.0. *)
Definition np_prod (l : list Z) : Z := wrap64 (zprod l).

(** An integer rounded to the nearest float64 (53 significant bits, ties to
    even). *)
Definition f64 (x : Z) : Z :=
  let a := Z.abs x in
  if a <=? 2 ^ 53 then x
  else
    let e := Z.log2 a - 52 in
    let q := a / 2 ^ e in
    let r := a mod 2 ^ e in
    let h := 2 ^ (e - 1) in
    let q' := if r <? h then q
              else if h <? r then q + 1
              else if Z.even q then q else q + 1 in
    Z.sgn x * (q' * 2 ^ e).

(** The float64 values met while the column index is accumulated. *)
Inductive float64 : Type :=
  | Finite (z : Z)
  | PosInf
  | NegInf
  | NaN.

Definition f64_of (x : Z) : float64 :=
  let r := f64 x in
  if 2 ^ 1024 <=? r then PosInf
  else if r <=? - 2 ^ 1024 then NegInf
  else Finite r.

(** [a + b] on float64 values. *)
Definition f64_add (a b : float64) : float64 :=
  match a, b with
  | Finite x, Finite y => f64_of (x + y)
  | NaN, _ | _, NaN => NaN
  | PosInf, NegInf | NegInf, PosInf => NaN
  | PosInf, _ | _, PosInf => PosInf
  | NegInf, _ | _, NegInf => NegInf
  end.

(** A Python int converted to float64: too large an int raises. *)
Definition py_float (z : Z) : result float64 :=
  if Z.abs z <? 2 ^ 1024 - 2 ^ 970 then Ok (Finite (f64 z))
  else Raise OverflowError.

(** [int(x)] on a float64. *)
Definition py_int (x : float64) : result Z :=
  match x with
  | Finite z => Ok z
  | PosInf | NegInf => Raise OverflowError
  | NaN => Raise ValueError
  end.

(** [range(n)] *)
Definition range (n : Z) : list Z := map Z.of_nat (seq 0 (Z.to_nat n)).

(** [sum(l)]: a left fold starting from 0. *)
Definition py_sum (l : list Q) : Q := fold_left fadd l 0%Q.

(** ** The class [Variable] *)

(** The source's class is [Variable], a reserved word here: the type is
    [Var]. *)
Record Var : Type := mkVariable {
  oid : nat;
  name : string;
  no_states : Z;
  table : list (list Q);
  parents : list string;
  no_parent_states : list Z
}.

(** [a == b], [a is b] on instances. *)
Definition var_eqb (a b : Var) : bool := Nat.eqb (oid a) (oid b).

(** ** Python values reaching the methods *)

(** Dictionary keys: a name or a [Variable] instance. *)
Inductive pykey : Type :=
  | KStr (s : string)
  | KObj (v : Var).

Definition key_eqb (a b : pykey) : bool :=
  match a, b with
  | KStr s, KStr t => String.eqb s t
  | KObj v, KObj w => var_eqb v w
  | _, _ => false
  end.

(** Dictionary values of an evidence mapping: a state index, or (stored by
    lines 234 and 263 of the source) a [Variable] instance. *)
Inductive pyval : Type :=
  | VInt (z : Z)
  | VVar (v : Var).

Definition dict : Type := list (pykey * pyval).

Fixpoint dict_get (k : pykey) (d : dict) : option pyval :=
  match d with
  | [] => None
  | (k', v) :: d' => if key_eqb k k' then Some v else dict_get k d'
  end.

(** [k in d] *)
Definition dict_mem (k : pykey) (d : dict) : bool :=
  match dict_get k d with Some _ => true | None => false end.

(** [d[k] = v]: an existing key keeps its position. *)
Fixpoint dict_set (k : pykey) (v : pyval) (d : dict) : dict :=
  match d with
  | [] => [(k, v)]
  | (k', v') :: d' =>
      if key_eqb k k' then (k', v) :: d' else (k', v') :: dict_set k v d'
  end.

(** Arguments of dynamically typed methods. *)
Inductive pyobj : Type :=
  | PInt (z : Z)
  | PBool (b : bool)
  | PNpInt (z : Z)
  | PFloat (q : Q)
  | PStr (s : string)
  | PNone
  | PVar (v : Var)
  | PDict (d : dict).

(** [isinstance(o, int)]: a [bool] is an [int], a numpy integer scalar is
    not. *)
Definition is_int (o : pyobj) : bool :=
  match o with PInt _ | PBool _ => true | _ => false end.

(** [isinstance(o, dict)] *)
Definition is_dict (o : pyobj) : bool :=
  match o with PDict _ => true | _ => false end.

(** ** [Variable.__init__] (lines 42-58) *)

(** [np.array(table)] needs rows of one length. *)
Definition rectangular (t : list (list Q)) : bool :=
  match t with
  | [] => true
  | r :: rs => forallb (fun r' => Nat.eqb (length r') (length r)) rs
  end.

(** [table.sum(axis=0)] *)
Definition column_sums (t : list (list Q)) : list Q :=
  match t with
  | [] => []
  | r :: _ =>
      map (fun j => py_sum (map (fun row => nth j row 0%Q) t))
          (seq 0 (length r))
  end.

(** [np.allclose(a, 1)]: |a - 1| <= atol + rtol * |1| with the defaults
    atol = 1e-8 and rtol = 1e-5.  The code sums and compares in floating
    point; here the sums are exact. *)
Definition allclose1 (l : list Q) : bool :=
  forallb (fun a => Qle_bool (Qabs (a - 1)) (1001 # 100000000)) l.

Definition Variable_init (addr : nat) (nm : string) (n : Z)
    (t : list (list Q)) (ps : list string) (nps : list Z) : result Var :=
  if negb (rectangular t) then Raise ValueError
  else if negb (Z.of_nat (length t) =? n) then Raise ValueError
  else
    match t with
    | [] => Raise IndexError
    | r :: _ =>
        if negb (Z.of_nat (length r) =? np_prod nps) then Raise ValueError
        else if negb (allclose1 (column_sums t)) then Raise ValueError
        else if negb (Nat.eqb (length ps) (length nps)) then Raise ValueError
        else Ok (mkVariable addr nm n t ps nps)
    end.

(** ** [Variable.probability] (lines 84-112) *)

(** [l.index(x)]: position of the first occurrence. *)
Fixpoint list_index (x : string) (l : list string) : option nat :=
  match l with
  | [] => None
  | y :: l' =>
      if String.eqb x y then Some O
      else match list_index x l' with
           | Some i => Some (S i)
           | None => None
           end
  end.

(** An index into an axis of length [n]: negative indices count from the
    end. *)
Definition np_axis (i : Z) (n : nat) : option nat :=
  if 0 <=? i then
    if i <? Z.of_nat n then Some (Z.to_nat i) else None
  else
    if - Z.of_nat n <=? i then Some (Z.to_nat (i + Z.of_nat n)) else None.

(** [table[i, j]] *)
Definition np_getitem2 (t : list (list Q)) (i j : Z) : result Q :=
  match np_axis i (length t) with
  | None => Raise IndexError
  | Some r =>
      match nth_error t r with
      | None => Raise IndexError
      | Some row =>
          match np_axis j (length row) with
          | None => Raise IndexError
          | Some c =>
              match nth_error row c with
              | None => Raise IndexError
              | Some p => Ok p
              end
          end
      end
  end.

(** [table[b, j]] with a [bool] first: numpy's boolean indexing.  [True] adds
    an axis of length 1 and [j] then selects a ROW; [False] adds an axis of
    length 0 and nothing is selected nor checked. *)
Definition np_getitem_bool (t : list (list Q)) (b : bool) (j : Z)
    : result (list (list Q)) :=
  if b then
    match np_axis j (length t) with
    | None => Raise IndexError
    | Some r =>
        match nth_error t r with
        | None => Raise IndexError
        | Some row => Ok [row]
        end
    end
  else Ok [].

(** [z * np.prod(prefix)] (line 110), [z] a Python int.  On the empty prefix
    [np.prod] is the float 1.0 and [z] becomes a float64; otherwise it is an
    int64, [z] must fit in int64 and the int64 product wraps; the int64 is
    turned into a float64 when it is added to the index. *)
Definition np_times (z : Z) (prefix : list Z) : result float64 :=
  match prefix with
  | [] => py_float z
  | _ :: _ =>
      if fits_int64 z then Ok (f64_of (wrap64 (z * np_prod prefix)))
      else Raise OverflowError
  end.

(** The [for variable in self.parents] loop (lines 105-110); [rest] is what
    remains to be visited, [table_index] the accumulator: the int 0 at first,
    a float64 from the first turn on (the first parent visited has index 0,
    hence the empty prefix).  A [Variable] instance found as a parent's value
    cannot be multiplied: [TypeError]. *)
Fixpoint probability_loop (self : Var) (parentstates : dict)
    (rest : list string) (table_index : float64) : result float64 :=
  match rest with
  | [] => Ok table_index
  | variable :: rest' =>
      if negb (dict_mem (KStr variable) parentstates) then Raise ValueError
      else
        match list_index variable (parents self) with
        | None => Raise ValueError
        | Some var_index =>
            match dict_get (KStr variable) parentstates with
            | Some (VInt z) =>
                term <- np_times z
                          (firstn var_index (no_parent_states self)) ;;
                probability_loop self parentstates rest'
                  (f64_add table_index term)
            | Some (VVar _) => Raise TypeError
            | None => Raise KeyError
            end
        end
  end.

(** Lines 99-112 for a state that is an [int] proper and a mapping that is a
    [dict]: the range checks, the loop and the lookup [table[state, index]],
    which yields a scalar. *)
Definition probability_of_int (self : Var) (st : Z) (ps : dict) : result Q :=
  if st >=? no_states self then Raise ValueError
  else if st <? 0 then Raise ValueError
  else
    table_index <- probability_loop self ps (parents self) (Finite 0) ;;
    j <- py_int table_index ;;
    np_getitem2 (table self) st j.

(** What [probability] returns: a scalar, or for a [bool] state the array
    that boolean indexing yields. *)
Inductive pyret : Type :=
  | Scalar (p : Q)
  | BoolIndexed (rows : list (list Q)).

Definition probability (self : Var) (state parentstates : pyobj)
    : result pyret :=
  if negb (is_int state) then Raise TypeError
  else if negb (is_dict parentstates) then Raise TypeError
  else
    match state, parentstates with
    | PInt st, PDict ps =>
        p <- probability_of_int self st ps ;;
        Ok (Scalar p)
    | PBool b, PDict ps =>
        let st := if b then 1 else 0 in
        if st >=? no_states self then Raise ValueError
        else if st <? 0 then Raise ValueError
        else
          table_index <- probability_loop self ps (parents self) (Finite 0) ;;
          j <- py_int table_index ;;
          rows <- np_getitem_bool (table self) b j ;;
          Ok (BoolIndexed rows)
    | _, _ => Raise TypeError
    end.

(** The docstring's example: 3 states, parents cond0 and cond1 with 3 and 2
    states. *)
Definition event_table : list (list Q) :=
  [ [2#10; 2#10; 7#10; 0; 2#10; 4#10];
    [3#10; 8#10; 2#10; 0; 2#10; 4#10];
    [5#10; 0; 1#10; 1; 6#10; 2#10] ]%Q.

Definition event : Var :=
  mkVariable 0 "event" 3 event_table ["cond0"; "cond1"] [3; 2].

(** ** The class [BayesianNetwork] (lines 115-208) *)

(** [self.variables]: name to instance, in insertion order. *)
Definition vdict : Type := list (string * Var).

Fixpoint vdict_get (k : string) (d : vdict) : option Var :=
  match d with
  | [] => None
  | (k', v) :: d' => if String.eqb k k' then Some v else vdict_get k d'
  end.

Fixpoint vdict_set (k : string) (v : Var) (d : vdict) : vdict :=
  match d with
  | [] => [(k, v)]
  | (k', v') :: d' =>
      if String.eqb k k' then (k', v) :: d' else (k', v') :: vdict_set k v d'
  end.

(** [self.edges]: instance to the list of its children. *)
Definition edict : Type := list (Var * list Var).

Fixpoint edict_get (k : Var) (d : edict) : option (list Var) :=
  match d with
  | [] => None
  | (k', l) :: d' => if var_eqb k k' then Some l else edict_get k d'
  end.

Fixpoint edict_set (k : Var) (l : list Var) (d : edict) : edict :=
  match d with
  | [] => [(k, l)]
  | (k', l') :: d' =>
      if var_eqb k k' then (k', l) :: d' else (k', l') :: edict_set k l d'
  end.

(** [d[k]] on a [defaultdict(lambda: [])]: a missing key is inserted with a
    new empty list. *)
Definition edict_default (k : Var) (d : edict) : list Var * edict :=
  match edict_get k d with
  | Some l => (l, d)
  | None => ([], edict_set k [] d)
  end.

Record BayesianNetwork : Type := mkNetwork {
  edges : edict;
  variables : vdict
}.

(** [BayesianNetwork()] *)
Definition empty_network : BayesianNetwork := mkNetwork [] [].

(** [x in l] for a list of instances *)
Definition var_in (x : Var) (l : list Var) : bool := existsb (var_eqb x) l.

(** [add_variable] (lines 129-135) *)
Definition add_variable (self : BayesianNetwork) (variable : pyobj)
    : result BayesianNetwork :=
  match variable with
  | PVar v =>
      Ok (mkNetwork (edges self) (vdict_set (name v) v (variables self)))
  | _ => Raise TypeError
  end.

(** [add_edge] (lines 137-146) *)
Definition add_edge (self : BayesianNetwork) (from_variable to_variable : Var)
    : result BayesianNetwork :=
  if negb (var_in from_variable (map snd (variables self))) then
    Raise ValueError
  else if negb (var_in to_variable (map snd (variables self))) then
    Raise ValueError
  else
    let (l, d) := edict_default from_variable (edges self) in
    Ok (mkNetwork (edict_set from_variable (l ++ [to_variable]) d)
                  (variables self)).

(** *** [sorted_nodes] (lines 163-208)

    [edge_dict] is a shallow copy of [self.edges]: its lists are the very
    list objects of the network.  [children_of_variable[n_parent]] is only
    ever bound to [edge_dict[n_parent]] (line 189), so it is the same list
    object again: the state keeps the keys of [children_of_variable] in
    insertion order and reads their values through [edge_dict]. *)

Record sn_state : Type := mkState {
  l_sorted : list Var;
  s_origin_nodes : list Var;
  edge_dict : edict;
  children_of_variable : list Var
}.

(** What [sorted_nodes] hands back: the list, or the [None] that
    [return print("the graph has cycles")] yields. *)
Inductive sorted_ret : Type :=
  | RetList (l : list Var)
  | RetNonePrinted.

(** [l.pop()]: the last element and what is left. *)
Definition list_pop {A : Type} (l : list A) : option (A * list A) :=
  match rev l with
  | [] => None
  | x :: r => Some (x, rev r)
  end.

(** [l.remove(x)]: the first occurrence goes. *)
Fixpoint list_remove (x : Var) (l : list Var) : list Var :=
  match l with
  | [] => []
  | y :: l' => if var_eqb x y then l' else y :: list_remove x l'
  end.

(** Lines 197-202: [else] belongs to the [if], so [child] is appended once
    for every list visited before the first one that holds it. *)
Fixpoint for_liste (child : Var) (values : list (list Var)) (s : list Var)
    : list Var :=
  match values with
  | [] => s
  | liste :: more =>
      if var_in child liste then s else for_liste child more (s ++ [child])
  end.

(** The values of [children_of_variable], read through [edge_dict]. *)
Definition cov_values (keys : list Var) (d : edict) : list (list Var) :=
  map (fun k => match edict_get k d with Some l => l | None => [] end) keys.

(** One turn of the inner loop (lines 188-203), entered with
    [edge_dict[n_parent] = child_list] non-empty and [child] its head. *)
Definition inner_body (n_parent child : Var) (child_list : list Var)
    (st : sn_state) : sn_state :=
  let cov :=
    if var_in n_parent (children_of_variable st)
    then children_of_variable st
    else children_of_variable st ++ [n_parent] in
  let removed := list_remove child child_list in
  let d1 := edict_set n_parent removed (edge_dict st) in
  let s := for_liste child (cov_values cov d1) (s_origin_nodes st) in
  let d2 := edict_set n_parent (removed ++ [child]) d1 in
  mkState (l_sorted st) s d2 cov.

(** [while edge_dict[n_parent]: ...] *)
Fixpoint inner_while (fuel : nat) (n_parent : Var) (st : sn_state)
    : option sn_state :=
  let (child_list, d) := edict_default n_parent (edge_dict st) in
  let st0 := mkState (l_sorted st) (s_origin_nodes st) d
                     (children_of_variable st) in
  match child_list with
  | [] => Some st0
  | child :: _ =>
      match fuel with
      | O => None
      | S f => inner_while f n_parent (inner_body n_parent child child_list st0)
      end
  end.

(** [while s_origin_nodes: ...] *)
Fixpoint outer_while (fuel : nat) (st : sn_state) : option sn_state :=
  match list_pop (s_origin_nodes st) with
  | None => Some st
  | Some (n_parent, s) =>
      match fuel with
      | O => None
      | S f =>
          let st1 := mkState (l_sorted st ++ [n_parent]) s (edge_dict st)
                             (children_of_variable st) in
          match inner_while f n_parent st1 with
          | None => None
          | Some st2 => outer_while f st2
          end
      end
  end.

(** Lines 205-208; [children_of_variable] is a plain dict, a missing key
    raises. *)
Fixpoint cycle_check (vs : list Var) (st : sn_state) : result sorted_ret :=
  match vs with
  | [] => Ok (RetList (l_sorted st))
  | variable :: more =>
      if var_in variable (children_of_variable st) then
        match edict_get variable (edge_dict st) with
        | Some (_ :: _) => Ok RetNonePrinted
        | _ => cycle_check more st
        end
      else Raise KeyError
  end.

(** [None] stands for a run that is still looping when the fuel is gone. *)
Definition sorted_nodes (fuel : nat) (self : BayesianNetwork)
    : option (result sorted_ret) :=
  let vs := map snd (variables self) in
  let origins :=
    filter (fun v => match parents v with [] => true | _ => false end) vs in
  match outer_while fuel (mkState [] origins (edges self) []) with
  | None => None
  | Some st => Some (cycle_check vs st)
  end.

(** ** The class [InferenceByEnumeration] (lines 211-283) *)

Record InferenceByEnumeration : Type := mkEngine {
  bayesian_network : BayesianNetwork;
  topo_order : sorted_ret
}.

(** [__init__] (lines 212-214) *)
Definition InferenceByEnumeration_init (fuel : nat) (bn : BayesianNetwork)
    : option (result InferenceByEnumeration) :=
  match sorted_nodes fuel bn with
  | None => None
  | Some (Ok order) => Some (Ok (mkEngine bn order))
  | Some (Raise e) => Some (Raise e)
  end.

(** [normalize] (lines 216-219), on a list of Python floats *)
Fixpoint normalize_loop (z : Q) (query : list Q) : result (list Q) :=
  match query with
  | [] => Ok []
  | element :: more =>
      q <- fdiv (fmul element 1) z ;;
      qs <- normalize_loop z more ;;
      Ok (q :: qs)
  end.

Definition normalize (query : list Q) : result (list Q) :=
  let z := py_sum query in
  normalize_loop z query.




(** [get_parents] (lines 238-242) *)
Fixpoint get_parents_loop (self : InferenceByEnumeration)
    (names : list string) (var_parents : list Var) : result (list Var) :=
  match names with
  | [] => Ok var_parents
  | parent_name :: more =>
      match vdict_get parent_name (variables (bayesian_network self)) with
      | None => Raise KeyError
      | Some p => get_parents_loop self more (var_parents ++ [p])
      end
  end.

Definition get_parents (self : InferenceByEnumeration) (variable : Var)
    : result (list Var) :=
  get_parents_loop self (parents variable) [].

(** [_enumerate_all] (lines 244-264).

    [vars.pop()] takes the LAST element, and every recursive call receives
    [vars.copy()] of what is left: the recursion is structural on the list
    read from its end, so the worker runs on [rev vars].  [y_parent_states_dict]
    is built and never read.  The states handed to [probability] are ints
    ([no_states], or drawn from [range]) and the mapping is a dict, so the
    calls are calls of [probability_of_int].  In the loop, [y_evidence] is rebound only after
    the recursive call of the same turn (line 263), and to the instance, not
    to [y_state]; the lookup of line 262 reads [evidence], not [y_evidence]. *)
Fixpoint enumerate_all_rev (self : InferenceByEnumeration)
    (rvars : list Var) (evidence : dict) : result Q :=
  match rvars with
  | [] => Ok 1%Q
  | y_variable :: rest =>
      _ <- get_parents self y_variable ;;
      if dict_mem (KObj y_variable) evidence then
        p <- probability_of_int y_variable (no_states y_variable)
                                evidence ;;
        r <- enumerate_all_rev self rest evidence ;;
        Ok (fmul p r)
      else
        (fix loop (states : list Z) (y_evidence : dict) (summ : Q)
           : result Q :=
           match states with
           | [] => Ok summ
           | y_state :: more =>
               p <- probability_of_int y_variable y_state evidence ;;
               r <- enumerate_all_rev self rest y_evidence ;;
               loop more
                    (dict_set (KStr (name y_variable)) (VVar y_variable)
                              y_evidence)
                    (fadd summ (fmul p r))
           end) (range (no_states y_variable)) evidence 0%Q
  end.

(** The value returned, and the caller's list after the call (one element
    popped unless it was empty). *)
Definition _enumerate_all (self : InferenceByEnumeration) (vars : list Var)
    (evidence : dict) : result (Q * list Var) :=
  r <- enumerate_all_rev self (rev vars) evidence ;;
  Ok (r, removelast vars).

(** [l.insert(i, x)] for [0 <= i] *)
Definition list_insert {A : Type} (i : Z) (x : A) (l : list A) : list A :=
  firstn (Z.to_nat i) l ++ x :: skipn (Z.to_nat i) l.

(** The loop of [_enumeration_ask] (lines 231-234): [new_vars] is one list
    object for all turns, and [x_evidence] is rebound after the call. *)
Fixpoint enumeration_ask_loop (self : InferenceByEnumeration)
    (x_variable : Var) (states : list Z)
    (query_of_x : list Q) (new_vars : list Var) (x_evidence : dict)
    : result (list Q) :=
  match states with
  | [] => Ok query_of_x
  | x_state :: more =>
      rv <- _enumerate_all self new_vars x_evidence ;;
      let (w, new_vars') := rv in
      enumeration_ask_loop self x_variable more
        (list_insert x_state w query_of_x) new_vars'
        (dict_set (KStr (name x_variable)) (VVar x_variable) x_evidence)
  end.

(** [_enumeration_ask] (lines 221-236).  [normalize] is taken as on Python
    numbers; where the weights hold a numpy scalar and sum to 0, the code
    returns the nan or infinities of [normalize_np] and raises nothing. *)
Definition _enumeration_ask (self : InferenceByEnumeration) (X : string)
    (evidence : dict) : result (list Q) :=
  match vdict_get X (variables (bayesian_network self)) with
  | None => Raise KeyError
  | Some x_variable =>
      match topo_order self with
      | RetNonePrinted => Raise AttributeError
      | RetList vars =>
          query_of_x <- enumeration_ask_loop self x_variable
                          (range (no_states x_variable)) [] vars evidence ;;
          normalize query_of_x
      end
  end.

(** [query] (lines 278-283); [addr] is where the new instance is allocated.
    [reshape(-1, 1)] makes one row of each weight. *)
Definition query (self : InferenceByEnumeration) (addr : nat) (var : string)
    (evidence : dict) : result Var :=
  q <- _enumeration_ask self var evidence ;;
  match vdict_get var (variables (bayesian_network self)) with
  | None => Raise KeyError
  | Some v => Variable_init addr var (no_states v) (map (fun w => [w]) q) [] []
  end.

(** ** The networks of the source and of the specification *)

Definition A : Var := mkVariable 1 "A" 2 [[8#10]; [2#10]]%Q [] [].
Definition B : Var :=
  mkVariable 2 "B" 2 [[5#10; 2#10]; [5#10; 8#10]]%Q ["A"] [2].
Definition C : Var :=
  mkVariable 3 "C" 2 [[1#10; 3#10]; [9#10; 7#10]]%Q ["B"] [2].
Definition D : Var :=
  mkVariable 4 "D" 2 [[6#10; 8#10]; [4#10; 2#10]]%Q ["B"] [2].

(** The chain A -> B. *)
Definition chain_network : BayesianNetwork :=
  mkNetwork [(A, [B])] [("A", A); ("B", B)].

(** The network that [main] and [problem3c] build. *)
Definition main_network : BayesianNetwork :=
  mkNetwork [(A, [B]); (B, [C; D])] [("A", A); ("B", B); ("C", C); ("D", D)].

(** ** What the specification says, in its own words *)

(** The state index that [ps] assigns to the parent [p]. *)
Definition assigned (ps : dict) (p : string) : Z :=
  match dict_get (KStr p) ps with
  | Some (VInt z) => z
  | _ => 0
  end.

Definition zsum (l : list Z) : Z := fold_right Z.add 0 l.

(** column = sum over i of parentstates[parents[i]] times the product of
    no_parent_states[j] for j < i. *)
Definition column_term (pars : list string) (nps : list Z) (ps : dict)
    (i : nat) : Z :=
  assigned ps (nth i pars "") * zprod (firstn i nps).

Definition column_formula (pars : list string) (nps : list Z) (ps : dict)
    : Z :=
  zsum (map (column_term pars nps ps) (seq 0 (length pars))).

(** [ps] gives every listed parent a state index within its cardinality. *)
Fixpoint in_range (pars : list string) (nps : list Z) (ps : dict) : bool :=
  match pars, nps with
  | p :: pars', c :: nps' =>
      match dict_get (KStr p) ps with
      | Some (VInt z) => (0 <=? z) && (z <? c) && in_range pars' nps' ps
      | _ => false
      end
  | _, _ => true
  end.

(** parentAssignmentFrom(evidence, parentNames) *)
Definition projection (evidence : dict) (names : list string) : dict :=
  filter (fun kv => match fst kv with
                    | KStr s => existsb (String.eqb s) names
                    | KObj _ => false
                    end) evidence.

(** EnumerateAll of the specification: head first, evidence looked up by
    name, each branch of the sum with its own extended mapping. *)
Fixpoint enumerate_all_spec (vars : list Var) (evidence : dict) : result Q :=
  match vars with
  | [] => Ok 1%Q
  | Y :: rest =>
      let given := projection evidence (parents Y) in
      match dict_get (KStr (name Y)) evidence with
      | Some e =>
          p <- match e with
               | VInt x => probability_of_int Y x given
               | VVar _ => Raise TypeError
               end ;;
          r <- enumerate_all_spec rest evidence ;;
          Ok (fmul p r)
      | None =>
          (fix sum_over (states : list Z) (acc : Q) : result Q :=
             match states with
             | [] => Ok acc
             | y :: more =>
                 p <- probability_of_int Y y given ;;
                 r <- enumerate_all_spec rest
                        (dict_set (KStr (name Y)) (VInt y) evidence) ;;
                 sum_over more (fadd acc (fmul p r))
             end) (range (no_states Y)) 0%Q
      end
  end.

(** Step 2 of Query as the specification has it: every state gets the full
    order and the evidence with the query variable bound to that state before
    the call. *)
Fixpoint weights_claimed (self : InferenceByEnumeration) (order : list Var)
    (X : string) (evidence : dict) (states : list Z) : result (list Q) :=
  match states with
  | [] => Ok []
  | x :: more =>
      rv <- _enumerate_all self order (dict_set (KStr X) (VInt x) evidence) ;;
      ws <- weights_claimed self order X evidence more ;;
      Ok (fst rv :: ws)
  end.

Definition enumeration_ask_claimed (self : InferenceByEnumeration)
    (X : string) (evidence : dict) : result (list Q) :=
  match vdict_get X (variables (bayesian_network self)) with
  | None => Raise KeyError
  | Some x_variable =>
      match topo_order self with
      | RetNonePrinted => Raise AttributeError
      | RetList order =>
          weight <- weights_claimed self order X evidence
                      (range (no_states x_variable)) ;;
          normalize weight
      end
  end.

(** ** Further inputs used below *)

(** A variable that lists the same parent twice; the constructor takes it. *)
Definition twice_table : list (list Q) :=
  [ [1#10; 2#10; 3#10; 4#10]; [9#10; 8#10; 7#10; 6#10] ]%Q.

Definition twice : Var := mkVariable 5 "X" 2 twice_table ["A"; "A"] [2; 2].

(** A variable whose cardinalities multiply to 2^64 + 1, which int64 wraps
    to 1: the constructor takes it with a table of one column. *)
Definition wrapped : Var :=
  mkVariable 9 "X" 1 [[1]]%Q ["p"; "q"] [274177; 67280421310721].

(** A second instance named A. *)
Definition A_again : Var := mkVariable 6 "A" 2 [[5#10]; [5#10]]%Q [] [].

(** The two-node cycle A -> B -> A of section 8. *)
Definition A_cyc : Var :=
  mkVariable 7 "A" 2 [[5#10; 5#10]; [5#10; 5#10]]%Q ["B"] [2].
Definition B_cyc : Var :=
  mkVariable 8 "B" 2 [[5#10; 5#10]; [5#10; 5#10]]%Q ["A"] [2].

Definition cyclic_network : BayesianNetwork :=
  mkNetwork [(A_cyc, [B_cyc]); (B_cyc, [A_cyc])]
            [("A", A_cyc); ("B", B_cyc)].

(** An engine over the chain whose order is the correct one, as if
    [sorted_nodes] had delivered it. *)
Definition chain_engine : InferenceByEnumeration :=
  mkEngine chain_network (RetList [A; B]).

(** The engine that the constructor builds over the empty network. *)
Definition empty_engine : InferenceByEnumeration :=
  mkEngine empty_network (RetList []).

(** The sum of a list of rationals, for stating what [py_sum] amounts to. *)
Definition qsum (l : list Q) : Q := fold_right Qplus 0%Q l.

(** ** The remaining methods and the notions used to describe the code *)

(** [all_edges] (lines 148-154): for every key of [self.edges], in order, one
    pair per child found under that key. *)
Definition all_edges (self : BayesianNetwork) : list (Var * Var) :=
  flat_map
    (fun key =>
       map (fun value => (key, value))
           (match edict_get key (edges self) with
            | Some l => l
            | None => []
            end))
    (map fst (edges self)).

(** [no_parents] (lines 156-161): how many pairs end in [variable]. *)
Definition no_parents (variable : Var) (edge_list : list (Var * Var)) : Z :=
  fold_left
    (fun result edge =>
       if var_eqb (snd edge) variable then result + 1 else result)
    edge_list 0.

(** The pairs of the entries, each entry with its own list. *)
Definition entry_pairs (d : edict) : list (Var * Var) :=
  flat_map (fun kl => map (fun value => (fst kl, value)) (snd kl)) d.

(** A dictionary has each key once. *)
Definition unique_keys (d : edict) : Prop :=
  NoDup (map (fun kl => oid (fst kl)) d).

Definition unique_names (d : vdict) : Prop := NoDup (map fst d).

(** The variables that line 179 puts on [s_origin_nodes]. *)
Definition origins (self : BayesianNetwork) : list Var :=
  filter (fun v => match parents v with [] => true | _ => false end)
         (map snd (variables self)).

(** [d[v]] is there and not empty. *)
Definition has_children (d : edict) (v : Var) : bool :=
  match edict_get v d with
  | Some (_ :: _) => true
  | _ => false
  end.

(** All keys are names. *)
Definition name_keyed (d : dict) : bool :=
  forallb (fun kv => match fst kv with KStr _ => true | KObj _ => false end) d.

(** All values are ints that fit in int64. *)
Definition int64_values (d : dict) : bool :=
  forallb (fun kv => match snd kv with
                     | VInt z => fits_int64 z
                     | VVar _ => false
                     end) d.

(** How many pairs of a list are the pair of [a] and [b]. *)
Definition count_pair (a b : Var) (l : list (Var * Var)) : Z :=
  Z.of_nat
    (length (filter (fun e => var_eqb (fst e) a && var_eqb (snd e) b) l)).

(** The summation loop of [_enumerate_all] (lines 261-263), as it stands
    inside [enumerate_all_rev]. *)
Definition enumerate_sum (self : InferenceByEnumeration) (y_variable : Var)
    (rest : list Var) (evidence : dict) : list Z -> dict -> Q -> result Q :=
  fix loop (states : list Z) (y_evidence : dict) (summ : Q) : result Q :=
    match states with
    | [] => Ok summ
    | y_state :: more =>
        p <- probability_of_int y_variable y_state evidence ;;
        r <- enumerate_all_rev self rest y_evidence ;;
        loop more
             (dict_set (KStr (name y_variable)) (VVar y_variable) y_evidence)
             (fadd summ (fmul p r))
    end.

(** An engine over the single variable A, holding the order [A]. *)
Definition single_engine : InferenceByEnumeration :=
  mkEngine (mkNetwork [] [("A", A)]) (RetList [A]).

(** ** The inputs are what the constructors and methods build *)

Example event_is_valid :
  Variable_init 0 "event" 3 event_table ["cond0"; "cond1"] [3; 2] = Ok event.
Proof. reflexivity. Qed.

Example event_lookup :
  probability event (PInt 0)
    (PDict [(KStr "cond0", VInt 1); (KStr "cond1", VInt 1)])
  = Ok (Scalar (2 # 10)%Q).
Proof. reflexivity. Qed.

Example chain_network_built :
  (n1 <- add_variable empty_network (PVar A) ;;
   n2 <- add_variable n1 (PVar B) ;;
   add_edge n2 A B) = Ok chain_network.
Proof. reflexivity. Qed.

Example main_network_built :
  (n1 <- add_variable empty_network (PVar A) ;;
   n2 <- add_variable n1 (PVar B) ;;
   n3 <- add_variable n2 (PVar C) ;;
   n4 <- add_variable n3 (PVar D) ;;
   n5 <- add_edge n4 A B ;;
   n6 <- add_edge n5 B C ;;
   add_edge n6 B D) = Ok main_network.
Proof. reflexivity. Qed.

Example variables_are_valid :
  Variable_init 6 "A" 2 [[5#10]; [5#10]]%Q [] [] = Ok A_again /\
  Variable_init 7 "A" 2 [[5#10; 5#10]; [5#10; 5#10]]%Q ["B"] [2] = Ok A_cyc /\
  Variable_init 8 "B" 2 [[5#10; 5#10]; [5#10; 5#10]]%Q ["A"] [2] = Ok B_cyc /\
  Variable_init 1 "A" 2 [[8#10]; [2#10]]%Q [] [] = Ok A /\
  Variable_init 2 "B" 2 [[5#10; 2#10]; [5#10; 8#10]]%Q ["A"] [2] = Ok B /\
  Variable_init 3 "C" 2 [[1#10; 3#10]; [9#10; 7#10]]%Q ["B"] [2] = Ok C /\
  Variable_init 4 "D" 2 [[6#10; 8#10]; [4#10; 2#10]]%Q ["B"] [2] = Ok D.
Proof. repeat split; reflexivity. Qed.

Example cyclic_network_built :
  (n1 <- add_variable empty_network (PVar A_cyc) ;;
   n2 <- add_variable n1 (PVar B_cyc) ;;
   n3 <- add_edge n2 A_cyc B_cyc ;;
   add_edge n3 B_cyc A_cyc) = Ok cyclic_network.
Proof. reflexivity. Qed.

Example empty_engine_built :
  forall fuel : nat,
    InferenceByEnumeration_init fuel empty_network = Some (Ok empty_engine).
Proof. intros [|f]; reflexivity. Qed.

(** ** Lemmas on the containers *)

Lemma var_eqb_refl (v : Var) : var_eqb v v = true.
Proof. apply Nat.eqb_refl. Qed.

Lemma edict_get_set_same (k : Var) (l : list Var) (d : edict) :
  edict_get k (edict_set k l d) = Some l.
Proof.
  induction d as [|[k' l'] d IH]; simpl.
  - now rewrite var_eqb_refl.
  - destruct (var_eqb k k') eqn:E; simpl; rewrite E; auto.
Qed.

Lemma vdict_get_set_same (k : string) (v : Var) (d : vdict) :
  vdict_get k (vdict_set k v d) = Some v.
Proof.
  induction d as [|[k' v'] d IH]; simpl.
  - now rewrite String.eqb_refl.
  - destruct (String.eqb k k') eqn:E; simpl; rewrite E; auto.
Qed.

Lemma vdict_get_set_other (k k' : string) (v : Var) (d : vdict) :
  k' <> k -> vdict_get k' (vdict_set k v d) = vdict_get k' d.
Proof.
  intros Hne. induction d as [|[k0 v0] d IH]; simpl.
  - destruct (String.eqb_spec k' k); [contradiction|reflexivity].
  - destruct (String.eqb_spec k k0) as [->|Hk]; simpl.
    + destruct (String.eqb_spec k' k0); [contradiction|reflexivity].
    + now rewrite IH.
Qed.

Lemma vdict_set_keys (k : string) (v old : Var) (d : vdict) :
  vdict_get k d = Some old ->
  map fst (vdict_set k v d) = map fst d.
Proof.
  induction d as [|[k' v'] d IH]; simpl; [discriminate|].
  destruct (String.eqb k k') eqn:E; simpl; intros H; [reflexivity|].
  now rewrite IH.
Qed.

Lemma zsum_app (l1 l2 : list Z) : zsum (l1 ++ l2) = zsum l1 + zsum l2.
Proof. induction l1; simpl; lia. Qed.

Lemma zprod_firstn_S (cs : list Z) (n : nat) (c : Z) :
  nth_error cs n = Some c ->
  zprod (firstn (S n) cs) = zprod (firstn n cs) * c.
Proof.
  revert n; induction cs as [|c0 cs IH]; intros [|n] H; try discriminate.
  - injection H as ->. change (c * 1 = 1 * c). ring.
  - simpl in H. apply IH in H.
    change (c0 * zprod (firstn (S n) cs) = c0 * zprod (firstn n cs) * c).
    rewrite H. ring.
Qed.

Lemma list_index_nodup (l : list string) (i : nat) (x : string) :
  NoDup l -> nth_error l i = Some x -> list_index x l = Some i.
Proof.
  revert i; induction l as [|y l IH]; intros [|i] ND H; try discriminate.
  - injection H as ->. simpl. now rewrite String.eqb_refl.
  - simpl in *. inversion ND as [|? ? Hy ND']; subst.
    destruct (String.eqb_spec x y) as [->|_].
    + exfalso. apply Hy. eapply nth_error_In; eauto.
    + now rewrite (IH i ND' H).
Qed.

(** ** The column index *)

Lemma in_range_nth (pars : list string) (nps : list Z) (ps : dict)
    (i : nat) (p : string) (c : Z) :
  in_range pars nps ps = true ->
  nth_error pars i = Some p ->
  nth_error nps i = Some c ->
  exists z, dict_get (KStr p) ps = Some (VInt z) /\ 0 <= z < c.
Proof.
  revert nps i.
  induction pars as [|p0 pars IH]; intros [|c0 nps] [|i] R Hp Hc;
    try discriminate; simpl in *.
  - injection Hp as ->. injection Hc as ->.
    destruct (dict_get (KStr p) ps) as [[z|]|]; try discriminate.
    apply andb_true_iff in R as [R _]. apply andb_true_iff in R as [R1 R2].
    exists z. split; [reflexivity | lia].
  - destruct (dict_get (KStr p0) ps) as [[z|]|]; try discriminate.
    apply andb_true_iff in R as [_ R]. eapply IH; eauto.
Qed.

(** Within these bounds the int64 and float64 arithmetic of the loop is
    exact. *)
Lemma wrap64_small (z : Z) : - 2 ^ 63 <= z < 2 ^ 63 -> wrap64 z = z.
Proof. intros H. unfold wrap64. rewrite Z.mod_small; lia. Qed.

Lemma f64_of_small (x : Z) : Z.abs x <= 2 ^ 53 -> f64_of x = Finite x.
Proof.
  intros H. unfold f64_of, f64.
  destruct (Z.leb_spec (Z.abs x) (2 ^ 53)); [|lia].
  destruct (Z.leb_spec (2 ^ 1024) x); [lia|].
  destruct (Z.leb_spec x (- 2 ^ 1024)); [lia|reflexivity].
Qed.

Lemma np_times_exact (z : Z) (prefix : list Z) :
  0 <= z -> 1 <= zprod prefix <= 2 ^ 53 -> z * zprod prefix <= 2 ^ 53 ->
  np_times z prefix = Ok (Finite (z * zprod prefix)).
Proof.
  intros Hz Hp Hzp. unfold np_times.
  assert (Hzb : z <= 2 ^ 53) by nia.
  destruct prefix as [|c prefix].
  - unfold py_float, f64.
    destruct (Z.ltb_spec (Z.abs z) (2 ^ 1024 - 2 ^ 970)); [|lia].
    destruct (Z.leb_spec (Z.abs z) (2 ^ 53)); [|lia].
    change (zprod []) with 1. now rewrite Z.mul_1_r.
  - unfold fits_int64.
    destruct (Z.leb_spec (- 2 ^ 63) z); [|lia].
    destruct (Z.ltb_spec z (2 ^ 63)); [|lia].
    cbn [andb]. unfold np_prod.
    rewrite (wrap64_small (zprod (c :: prefix))) by lia.
    rewrite wrap64_small by nia.
    rewrite f64_of_small by nia. reflexivity.
Qed.

Lemma zprod_firstn_le (l : list Z) :
  Forall (fun c => 1 <= c) l ->
  forall n : nat, 1 <= zprod (firstn n l) <= zprod l.
Proof.
  induction 1 as [|c l Hc Hl IH]; intros [|n]; unfold zprod in *;
    cbn [firstn fold_right]; try lia.
  - specialize (IH O). cbn [firstn fold_right] in IH. nia.
  - specialize (IH n). nia.
Qed.

(** An assignment within range, for parents and cardinalities of one
    length. *)
Section InRange.

Variables (pars : list string) (nps : list Z) (ps : dict).
Hypothesis in_range_ok : in_range pars nps ps = true.
Hypothesis same_length : length pars = length nps.

Lemma in_range_present :
  forall p, In p pars -> exists z, dict_get (KStr p) ps = Some (VInt z).
Proof.
  intros p Hin.
  destruct (In_nth_error _ _ Hin) as [i Hi].
  assert (Hlt : (i < length pars)%nat) by (apply nth_error_Some; congruence).
  destruct (nth_error nps i) as [c|] eqn:Hc.
  2:{ apply nth_error_None in Hc. lia. }
  destruct (in_range_nth _ _ _ _ _ _ in_range_ok Hi Hc) as [z [Hz _]].
  now exists z.
Qed.

Lemma cardinalities_positive : Forall (fun c => 1 <= c) nps.
Proof.
  apply Forall_forall. intros c Hin.
  destruct (In_nth_error _ _ Hin) as [i Hc].
  assert (Hlt : (i < length nps)%nat) by (apply nth_error_Some; congruence).
  destruct (nth_error pars i) as [p|] eqn:Hp.
  2:{ apply nth_error_None in Hp. lia. }
  destruct (in_range_nth _ _ _ _ _ _ in_range_ok Hp Hc) as [z [_ Hz]].
  lia.
Qed.

(** Every partial sum of the formula is a valid index into the columns
    counted so far. *)
Lemma column_bound :
  forall n, (n <= length pars)%nat ->
    0 <= zsum (map (column_term pars nps ps) (seq 0 n))
      < zprod (firstn n nps).
Proof.
  induction n as [|n IH]; intros Hn.
  - simpl. unfold zprod. simpl. lia.
  - specialize (IH ltac:(lia)).
    destruct (nth_error pars n) as [p|] eqn:Hp.
    2:{ apply nth_error_None in Hp. lia. }
    destruct (nth_error nps n) as [c|] eqn:Hc.
    2:{ apply nth_error_None in Hc. lia. }
    destruct (in_range_nth _ _ _ _ _ _ in_range_ok Hp Hc) as [z [Hz Hzc]].
    assert (Ht : column_term pars nps ps n = z * zprod (firstn n nps)).
    { unfold column_term, assigned.
      now rewrite (nth_error_nth _ _ _ Hp), Hz. }
    rewrite seq_S, map_app, zsum_app. simpl map. simpl zsum.
    rewrite (zprod_firstn_S _ _ _ Hc), Ht.
    nia.
Qed.

Lemma column_formula_bound :
  0 <= column_formula pars nps ps < zprod nps.
Proof.
  pose proof (column_bound (length pars) (le_n _)) as Hb.
  rewrite same_length, firstn_all in Hb. rewrite <- same_length in Hb.
  exact Hb.
Qed.

End InRange.

(** With distinct parents, an assignment within range and a product of
    cardinalities that float64 holds exactly, the loop computes the
    formula. *)
Lemma probability_loop_exact (self : Var) (ps : dict) :
  NoDup (parents self) ->
  in_range (parents self) (no_parent_states self) ps = true ->
  length (parents self) = length (no_parent_states self) ->
  zprod (no_parent_states self) <= 2 ^ 53 ->
  forall rest pre : list string,
    parents self = pre ++ rest ->
    probability_loop self ps rest
      (Finite (zsum (map (column_term (parents self) (no_parent_states self) ps)
                         (seq 0 (length pre)))))
    = Ok (Finite (column_formula (parents self) (no_parent_states self) ps)).
Proof.
  intros ND R L T.
  pose proof (cardinalities_positive _ _ _ R L) as Hpos.
  induction rest as [|x rest IH]; intros pre E.
  - rewrite app_nil_r in E. rewrite <- E. reflexivity.
  - assert (Hn : nth_error (parents self) (length pre) = Some x).
    { rewrite E, nth_error_app2, Nat.sub_diag by lia. reflexivity. }
    assert (Hlt : (length pre < length (parents self))%nat).
    { apply nth_error_Some. congruence. }
    destruct (nth_error (no_parent_states self) (length pre)) as [c|] eqn:Hc.
    2:{ apply nth_error_None in Hc. lia. }
    destruct (in_range_nth _ _ _ _ _ _ R Hn Hc) as [z [Hz Hzc]].
    pose proof (column_bound _ _ _ R L (length pre) ltac:(lia)) as Hb.
    pose proof (column_bound _ _ _ R L (S (length pre)) ltac:(lia)) as Hb'.
    pose proof (zprod_firstn_le _ Hpos (length pre)) as Hp.
    pose proof (zprod_firstn_le _ Hpos (S (length pre))) as Hp'.
    pose proof (zprod_firstn_S _ _ _ Hc) as HS.
    assert (Ht : column_term (parents self) (no_parent_states self) ps
                   (length pre)
                 = z * zprod (firstn (length pre) (no_parent_states self))).
    { unfold column_term, assigned.
      now rewrite (nth_error_nth _ _ _ Hn), Hz. }
    rewrite seq_S, map_app, zsum_app in Hb'. simpl map in Hb'.
    simpl zsum in Hb'. rewrite Ht in Hb'.
    cbn [probability_loop]. unfold dict_mem. rewrite Hz. cbn [negb].
    rewrite (list_index_nodup _ _ _ ND Hn).
    rewrite np_times_exact by nia. cbn [bind f64_add].
    rewrite f64_of_small by lia.
    specialize (IH (pre ++ [x])).
    rewrite length_app in IH. simpl length in IH.
    replace (length pre + 1)%nat with (S (length pre)) in IH by lia.
    rewrite seq_S, map_app, zsum_app in IH. simpl map in IH.
    simpl zsum in IH. rewrite Ht in IH.
    rewrite Z.add_0_r in IH. apply IH.
    rewrite E, <- app_assoc. reflexivity.
Qed.

Lemma Variable_init_ok (addr : nat) (nm : string) (n : Z)
    (t : list (list Q)) (ps : list string) (nps : list Z) (v : Var) :
  Variable_init addr nm n t ps nps = Ok v ->
  v = mkVariable addr nm n t ps nps /\
  Z.of_nat (length t) = n /\
  length ps = length nps /\
  exists r rs, t = r :: rs /\
    Z.of_nat (length r) = np_prod nps /\
    forallb (fun r' => Nat.eqb (length r') (length r)) rs = true.
Proof.
  unfold Variable_init.
  destruct (rectangular t) eqn:R; cbn [negb]; [|discriminate].
  destruct (Z.of_nat (length t) =? n) eqn:E1; cbn [negb]; [|discriminate].
  destruct t as [|r rs]; [discriminate|].
  destruct (Z.of_nat (length r) =? np_prod nps) eqn:E2; cbn [negb];
    [|discriminate].
  destruct (allclose1 (column_sums (r :: rs))); cbn [negb]; [|discriminate].
  destruct (Nat.eqb (length ps) (length nps)) eqn:E3; cbn [negb];
    [|discriminate].
  intros H. injection H as <-.
  apply Z.eqb_eq in E1, E2. apply Nat.eqb_eq in E3.
  repeat split; auto. exists r, rs. auto.
Qed.

Lemma np_axis_in (i : Z) (n : nat) :
  0 <= i < Z.of_nat n -> np_axis i n = Some (Z.to_nat i).
Proof.
  intros H. unfold np_axis.
  destruct (Z.leb_spec 0 i); [|lia].
  destruct (Z.ltb_spec i (Z.of_nat n)); [reflexivity|lia].
Qed.

Lemma np_getitem2_in (t : list (list Q)) (i j : Z) (row : list Q) :
  0 <= i ->
  nth_error t (Z.to_nat i) = Some row ->
  0 <= j < Z.of_nat (length row) ->
  exists p, nth_error row (Z.to_nat j) = Some p /\ np_getitem2 t i j = Ok p.
Proof.
  intros Hi Hrow Hj.
  assert (Hlt : (Z.to_nat i < length t)%nat).
  { apply nth_error_Some. congruence. }
  destruct (nth_error row (Z.to_nat j)) as [p|] eqn:Hp.
  2:{ apply nth_error_None in Hp. lia. }
  exists p. split; [reflexivity|].
  unfold np_getitem2.
  rewrite np_axis_in by lia. rewrite Hrow.
  rewrite np_axis_in by lia. rewrite Hp. reflexivity.
Qed.

Lemma row_length (r : list Q) (rs : list (list Q)) (i : nat) (row : list Q) :
  forallb (fun r' => Nat.eqb (length r') (length r)) rs = true ->
  nth_error (r :: rs) i = Some row ->
  length row = length r.
Proof.
  intros F H. destruct i as [|i]; simpl in H.
  - now injection H as ->.
  - apply nth_error_In in H.
    rewrite forallb_forall in F. apply Nat.eqb_eq. now apply F.
Qed.

(** ** Theorems *)

(** C10. [probability] raises [TypeError] as soon as [state] is not an [int]
    (a numpy integer scalar and a float are not, whatever their value) or
    [parentstates] is not a [dict]: whatever the state's value, the table and
    the parents are, nothing else is looked at before. *)
Theorem probability_type_guards :
  forall (self : Var) (state parentstates : pyobj),
    is_int state = false \/ is_dict parentstates = false ->
    probability self state parentstates = Raise TypeError.
Proof.
  intros self state parentstates [H|H]; unfold probability; rewrite H.
  - reflexivity.
  - destruct (is_int state); reflexivity.
Qed.

Lemma probability_type_guards_witness :
  (is_int (PNpInt 0) = false \/ is_dict (PDict []) = false) /\
  probability event (PNpInt 0) (PDict []) = Raise TypeError.
Proof.
  split.
  - left. reflexivity.
  - apply probability_type_guards. left. reflexivity.
Defined.

(** C8, as amended.  For a variable accepted by the constructor whose parent
    names are pairwise distinct and whose cardinalities multiply to at most
    2^53 (so that neither the int64 product of line 51 wraps nor the float64
    index of line 110 is rounded), a state that is an int within range and a
    mapping that gives every parent an in-range state index, [probability]
    returns the entry of [table] at row [state] and at the column given by
    the mixed-radix formula (first parent fastest); this column lies within
    the table.  With parents cond0, cond1 of cardinalities 3 and 2, both
    observed in state 1, the column is 4. *)
Theorem probability_mixed_radix :
  forall (addr : nat) (nm : string) (n : Z) (t : list (list Q))
         (pars : list string) (nps : list Z) (v : Var)
         (state : Z) (ps : dict),
    Variable_init addr nm n t pars nps = Ok v ->
    NoDup pars ->
    zprod nps <= 2 ^ 53 ->
    0 <= state < n ->
    in_range pars nps ps = true ->
    0 <= column_formula pars nps ps < zprod nps /\
    (exists row p,
        nth_error t (Z.to_nat state) = Some row /\
        nth_error row (Z.to_nat (column_formula pars nps ps)) = Some p /\
        probability v (PInt state) (PDict ps) = Ok (Scalar p)) /\
    (pars = ["cond0"; "cond1"] -> nps = [3; 2] ->
     assigned ps "cond0" = 1 -> assigned ps "cond1" = 1 ->
     column_formula pars nps ps = 4).
Proof.
  intros addr nm n t pars nps v state ps Hv ND T Hst R.
  destruct (Variable_init_ok _ _ _ _ _ _ _ Hv)
    as [-> [Hrows [L [r [rs [-> [Hcols Hrect]]]]]]].
  assert (Hb : 0 <= column_formula pars nps ps < zprod nps)
    by now apply column_formula_bound.
  assert (Hwrap : np_prod nps = zprod nps).
  { unfold np_prod. apply wrap64_small. lia. }
  rewrite Hwrap in Hcols.
  split; [exact Hb|]. split.
  - destruct (nth_error (r :: rs) (Z.to_nat state)) as [row|] eqn:Hrow.
    2:{ apply nth_error_None in Hrow. lia. }
    assert (Hlen : length row = length r) by (eapply row_length; eauto).
    destruct (np_getitem2_in (r :: rs) state (column_formula pars nps ps) row)
      as [p [Hp Hget]]; [lia | exact Hrow | lia |].
    exists row, p. repeat split; auto.
    unfold probability, probability_of_int.
    cbn [is_int is_dict negb no_states parents table].
    destruct (Z.geb_spec state n); [lia|].
    destruct (Z.ltb_spec state 0); [lia|].
    pose proof (probability_loop_exact
                  (mkVariable addr nm n (r :: rs) pars nps) ps
                  ND R L T pars [] eq_refl) as Hloop.
    cbn [length seq map zsum fold_right parents no_parent_states] in Hloop.
    rewrite Hloop. cbn [bind py_int]. rewrite Hget. reflexivity.
  - intros -> -> H0 H1. unfold column_formula, column_term.
    cbn [length seq map nth firstn zsum fold_right zprod].
    rewrite H0, H1. reflexivity.
Qed.

Lemma probability_mixed_radix_witness :
  0 <= column_formula ["cond0"; "cond1"] [3; 2]
         [(KStr "cond0", VInt 1); (KStr "cond1", VInt 1)] < zprod [3; 2] /\
  (exists row p,
      nth_error event_table (Z.to_nat 0) = Some row /\
      nth_error row
        (Z.to_nat (column_formula ["cond0"; "cond1"] [3; 2]
                     [(KStr "cond0", VInt 1); (KStr "cond1", VInt 1)]))
      = Some p /\
      probability event (PInt 0)
        (PDict [(KStr "cond0", VInt 1); (KStr "cond1", VInt 1)])
      = Ok (Scalar p)) /\
  (["cond0"; "cond1"] = ["cond0"; "cond1"] -> [3; 2] = [3; 2] ->
   assigned [(KStr "cond0", VInt 1); (KStr "cond1", VInt 1)] "cond0" = 1 ->
   assigned [(KStr "cond0", VInt 1); (KStr "cond1", VInt 1)] "cond1" = 1 ->
   column_formula ["cond0"; "cond1"] [3; 2]
     [(KStr "cond0", VInt 1); (KStr "cond1", VInt 1)] = 4).
Proof.
  apply (probability_mixed_radix 0 "event" 3 event_table
           ["cond0"; "cond1"] [3; 2] event 0
           [(KStr "cond0", VInt 1); (KStr "cond1", VInt 1)]).
  - reflexivity.
  - repeat constructor; simpl; intuition discriminate.
  - unfold zprod. simpl. lia.
  - lia.
  - reflexivity.
Defined.

(** C8, the claim as written fails in two ways.  When a parent is listed
    twice, line 109 takes the position of the FIRST occurrence for both, so
    the lookup lands in column 2 where the formula gives column 3.  When the
    cardinalities multiply beyond int64, line 51 compares the number of
    columns with the wrapped product: the constructor takes a table of one
    column for cardinalities 274177 and 67280421310721, and the lookup at the
    formula's column 1 raises [IndexError]. *)
Lemma probability_outside_the_formula :
  (Variable_init 5 "X" 2 twice_table ["A"; "A"] [2; 2] = Ok twice /\
   in_range ["A"; "A"] [2; 2] [(KStr "A", VInt 1)] = true /\
   column_formula ["A"; "A"] [2; 2] [(KStr "A", VInt 1)] = 3 /\
   np_getitem2 (table twice) 0 3 = Ok (4 # 10)%Q /\
   probability twice (PInt 0) (PDict [(KStr "A", VInt 1)])
   = Ok (Scalar (3 # 10)%Q)) /\
  (Variable_init 9 "X" 1 [[1]]%Q ["p"; "q"] [274177; 67280421310721]
   = Ok wrapped /\
   in_range ["p"; "q"] [274177; 67280421310721]
     [(KStr "p", VInt 1); (KStr "q", VInt 0)] = true /\
   column_formula ["p"; "q"] [274177; 67280421310721]
     [(KStr "p", VInt 1); (KStr "q", VInt 0)] = 1 /\
   probability wrapped (PInt 0)
     (PDict [(KStr "p", VInt 1); (KStr "q", VInt 0)]) = Raise IndexError).
Proof.
  repeat split; reflexivity.
Qed.

(** ** The loops of [sorted_nodes] *)

(** Once the inner loop is entered it never leaves: each turn removes the
    first child (line 195) and puts it back at the end (line 203). *)
Lemma inner_while_diverges (fuel : nat) (n_parent : Var) :
  forall (st : sn_state) (c : Var) (l : list Var),
    edict_get n_parent (edge_dict st) = Some (c :: l) ->
    inner_while fuel n_parent st = None.
Proof.
  induction fuel as [|f IH]; intros st c l H; simpl;
    unfold edict_default; rewrite H; [reflexivity|].
  unfold inner_body. cbn [edge_dict].
  destruct (list_remove c (c :: l) ++ [c]) as [|c' l'] eqn:E.
  - destruct (list_remove c (c :: l)); discriminate.
  - eapply IH. cbn [edge_dict]. rewrite edict_get_set_same. reflexivity.
Qed.

(** So a run of the inner loop that ends has done no turn. *)
Ltac loop_not_entered fuel E :=
  destruct fuel; simpl; unfold edict_default; rewrite E;
  let H := fresh in intros H; injection H as <-; reflexivity.

Lemma inner_while_some (fuel : nat) (n_parent : Var) (st st' : sn_state) :
  inner_while fuel n_parent st = Some st' ->
  children_of_variable st' = children_of_variable st.
Proof.
  destruct (edict_get n_parent (edge_dict st)) as [[|c l]|] eqn:E.
  - loop_not_entered fuel E.
  - now rewrite (inner_while_diverges fuel n_parent st c l E).
  - loop_not_entered fuel E.
Qed.

Lemma outer_while_some (fuel : nat) :
  forall st st' : sn_state,
    outer_while fuel st = Some st' ->
    children_of_variable st' = children_of_variable st.
Proof.
  induction fuel as [|f IH]; intros st st'; simpl;
    destruct (list_pop (s_origin_nodes st)) as [[n s]|];
    try discriminate; try (intros H; injection H as <-; reflexivity).
  destruct (inner_while f n _) as [st2|] eqn:E; [|discriminate].
  intros H. apply IH in H. apply inner_while_some in E.
  rewrite H, E. reflexivity.
Qed.

Lemma list_pop_last {T : Type} (l : list T) (x : T) :
  list_pop (l ++ [x]) = Some (x, l).
Proof.
  unfold list_pop. rewrite rev_app_distr. simpl. now rewrite rev_involutive.
Qed.

(** When the parentless variable registered last has a child, the first turn
    of the outer loop never ends. *)
Lemma sorted_nodes_loops (fuel : nat) (self : BayesianNetwork)
    (origins : list Var) (n c : Var) (l : list Var) :
  filter (fun v => match parents v with [] => true | _ => false end)
         (map snd (variables self)) = origins ++ [n] ->
  edict_get n (edges self) = Some (c :: l) ->
  sorted_nodes fuel self = None.
Proof.
  intros Ho He. unfold sorted_nodes. rewrite Ho.
  destruct fuel as [|f]; simpl; rewrite list_pop_last; [reflexivity|].
  erewrite inner_while_diverges; [reflexivity | cbn [edge_dict]; exact He].
Qed.

(** All that a call can come to: [return print(...)] at line 207 is never
    reached. *)
Lemma sorted_nodes_cases (fuel : nat) (self : BayesianNetwork) :
  sorted_nodes fuel self = None \/
  sorted_nodes fuel self = Some (Raise KeyError) \/
  (variables self = [] /\ sorted_nodes fuel self = Some (Ok (RetList []))).
Proof.
  unfold sorted_nodes.
  destruct (variables self) as [|[k v] vs] eqn:V.
  - right. right. split; [reflexivity|]. destruct fuel; reflexivity.
  - destruct (outer_while fuel _) as [st|] eqn:E; [right; left|now left].
    apply outer_while_some in E. cbn [children_of_variable] in E.
    simpl. rewrite E. reflexivity.
Qed.

(** C4.  On the network that [main] builds (A -> B, B -> C, B -> D), which is
    acyclic, [sorted_nodes] never returns: with any amount of fuel the run is
    still inside the inner loop on A. *)
Theorem sorted_nodes_main_network_loops :
  forall fuel : nat, sorted_nodes fuel main_network = None.
Proof.
  intros fuel.
  apply (sorted_nodes_loops fuel main_network [] A B []); reflexivity.
Qed.

(** C5.  With at least one registered variable, [sorted_nodes] never returns
    a sequence: either the run loops for ever, or it ends in the [KeyError]
    of line 206. *)
Theorem sorted_nodes_returns_no_list :
  forall (fuel : nat) (self : BayesianNetwork),
    variables self <> [] ->
    sorted_nodes fuel self = None \/
    sorted_nodes fuel self = Some (Raise KeyError).
Proof.
  intros fuel self H.
  destruct (sorted_nodes_cases fuel self) as [E|[E|[E _]]]; auto.
  contradiction.
Qed.

Lemma sorted_nodes_returns_no_list_witness :
  variables chain_network <> [] /\
  (sorted_nodes 3 chain_network = None \/
   sorted_nodes 3 chain_network = Some (Raise KeyError)).
Proof.
  split.
  - discriminate.
  - apply sorted_nodes_returns_no_list. discriminate.
Defined.

(** C6.  On the cycle A -> B -> A no variable is parentless, the loops are
    skipped and line 206 looks up a key that [children_of_variable] does not
    have: the call, and with it the engine's constructor, ends in [KeyError].
    The same [KeyError] ends the call on an acyclic network of one variable
    without edges.  On no network does the call reach the message of line
    207. *)
Theorem sorted_nodes_cycle_key_error :
  forall fuel : nat,
    sorted_nodes fuel cyclic_network = Some (Raise KeyError) /\
    InferenceByEnumeration_init fuel cyclic_network = Some (Raise KeyError) /\
    sorted_nodes (S fuel) (mkNetwork [] [("A", A)]) = Some (Raise KeyError) /\
    forall self : BayesianNetwork,
      sorted_nodes fuel self <> Some (Ok RetNonePrinted).
Proof.
  intros fuel. repeat split.
  - destruct fuel; reflexivity.
  - destruct fuel; reflexivity.
  - destruct fuel as [|[|f]]; reflexivity.
  - intros self.
    destruct (sorted_nodes_cases fuel self) as [E|[E|[_ E]]];
      rewrite E; discriminate.
Qed.

(** ** The enumeration *)

Lemma sorted_nodes_chain_loops (fuel : nat) :
  sorted_nodes fuel chain_network = None.
Proof.
  apply (sorted_nodes_loops fuel chain_network [] A B []); reflexivity.
Qed.

(** C1.  [_enumerate_all] is not the recursion of the specification.  On
    [vars = [A]] with A observed in state 0 it returns 1, on the engine built
    over the empty network as on the chain's, where the recursion gives
    P(A=0) = 0.8: line 258 looks for the instance among keys that are names,
    so the observed branch is not taken and both states are summed.
    On the chain [vars = [A; B]] without evidence it raises [ValueError]
    where the recursion gives 1: [pop] takes B, the last element, and B's
    parent A has no value yet. *)
Theorem enumerate_all_is_not_the_recursion :
  _enumerate_all empty_engine [A] [(KStr "A", VInt 0)] = Ok (1%Q, []) /\
  _enumerate_all chain_engine [A] [(KStr "A", VInt 0)] = Ok (1%Q, []) /\
  enumerate_all_spec [A] [(KStr "A", VInt 0)] = Ok (4 # 5)%Q /\
  _enumerate_all chain_engine [A; B] [] = Raise ValueError /\
  enumerate_all_spec [A; B] [] = Ok 1%Q.
Proof. repeat split; reflexivity. Qed.

(** C2.  On the chain, with the correct order [A; B] at hand, asking for A
    without evidence raises [ValueError]: the first call of
    [_enumerate_all] runs before A is bound (line 234 comes after line 232).
    Computed as claimed, with A bound to the state beforehand and the full
    order each time, the same calls succeed; with the specification's
    recursion the weights are 0.8 and 0.2. *)
Theorem enumeration_ask_binds_too_late :
  _enumeration_ask chain_engine "A" [] = Raise ValueError /\
  enumeration_ask_claimed chain_engine "A" [] = Ok [1 # 2; 1 # 2]%Q /\
  enumerate_all_spec [A; B] [(KStr "A", VInt 0)] = Ok (4 # 5)%Q /\
  enumerate_all_spec [A; B] [(KStr "A", VInt 1)] = Ok (1 # 5)%Q.
Proof. repeat split; reflexivity. Qed.

(** C3.  query('A', {}) on the chain returns nothing: building the engine
    never ends, [sorted_nodes] looping on A's child list; and were the order
    [A; B] handed to the engine, the query would raise [ValueError]. *)
Theorem query_A_on_chain_fails :
  (forall fuel : nat, InferenceByEnumeration_init fuel chain_network = None) /\
  (forall addr : nat, query chain_engine addr "A" [] = Raise ValueError).
Proof.
  split.
  - intros fuel. unfold InferenceByEnumeration_init.
    now rewrite sorted_nodes_chain_loops.
  - intros addr. reflexivity.
Qed.

(** ** [normalize] *)

Lemma fold_left_fadd (l : list Q) :
  forall a : Q, (fold_left fadd l a == a + qsum l)%Q.
Proof.
  induction l as [|x l IH]; intros a; unfold qsum in *;
    cbn [fold_left fold_right].
  - ring.
  - rewrite IH. unfold fadd. rewrite Qred_correct. ring.
Qed.

Lemma py_sum_qsum (l : list Q) : (py_sum l == qsum l)%Q.
Proof. unfold py_sum. rewrite fold_left_fadd. ring. Qed.

Lemma scaled_entry (z w : Q) :
  ~ (z == 0)%Q -> (Qred (fmul w 1 / z) == w / z)%Q.
Proof.
  intros Hz. unfold fmul. rewrite Qred_correct, Qred_correct.
  field. exact Hz.
Qed.

Lemma qsum_scaled (z : Q) (ws : list Q) :
  ~ (z == 0)%Q ->
  (qsum (map (fun w => Qred (fmul w 1 / z)) ws) == qsum ws / z)%Q.
Proof.
  intros Hz. induction ws as [|w ws IH].
  - unfold qsum. cbn [map fold_right]. field. exact Hz.
  - unfold qsum in *. cbn [map fold_right].
    rewrite IH, scaled_entry by exact Hz. field. exact Hz.
Qed.

Lemma normalize_loop_ok (z : Q) (ws : list Q) :
  ~ (z == 0)%Q ->
  normalize_loop z ws = Ok (map (fun w => Qred (fmul w 1 / z)) ws).
Proof.
  intros Hz. induction ws as [|w ws IH]; simpl; [reflexivity|].
  unfold fdiv. destruct (Qeq_bool z 0) eqn:E.
  - apply Qeq_bool_eq in E. contradiction.
  - simpl. rewrite IH. reflexivity.
Qed.





(** ** [add_variable] *)

(** C9, as amended.  [add_variable] has no check on the name.  Given a
    [Variable] whose name is already registered it succeeds: the name now
    leads to the new instance, in the place the name had; every other name
    leads to the instance it led to, and the edges are as before.  The only
    failure of [add_variable] is the [TypeError] for an argument that is not
    a [Variable]. *)
Theorem add_variable_replaces :
  forall (self : BayesianNetwork) (v old : Var),
    vdict_get (name v) (variables self) = Some old ->
    (exists self' : BayesianNetwork,
        add_variable self (PVar v) = Ok self' /\
        vdict_get (name v) (variables self') = Some v /\
        (forall k, k <> name v ->
                   vdict_get k (variables self')
                   = vdict_get k (variables self)) /\
        map fst (variables self') = map fst (variables self) /\
        edges self' = edges self) /\
    (forall o : pyobj, (forall w, o <> PVar w) ->
                       add_variable self o = Raise TypeError) /\
    (forall (o : pyobj) (e : exn),
        add_variable self o = Raise e ->
        e = TypeError /\ forall w, o <> PVar w).
Proof.
  intros self v old H. split; [|split].
  - eexists. split; [reflexivity|]. cbn [variables edges].
    repeat split.
    + apply vdict_get_set_same.
    + intros k Hk. now apply vdict_get_set_other.
    + eapply vdict_set_keys; eauto.
  - intros o Ho. destruct o; try reflexivity. now destruct (Ho v0).
  - intros o e. destruct o; simpl; intros E; try discriminate;
      injection E as <-; split; try reflexivity; intros w; discriminate.
Qed.

Lemma add_variable_replaces_witness :
  vdict_get (name A_again) (variables chain_network) = Some A /\
  (exists self' : BayesianNetwork,
      add_variable chain_network (PVar A_again) = Ok self' /\
      vdict_get (name A_again) (variables self') = Some A_again /\
      (forall k, k <> name A_again ->
                 vdict_get k (variables self')
                 = vdict_get k (variables chain_network)) /\
      map fst (variables self') = map fst (variables chain_network) /\
      edges self' = edges chain_network) /\
  (forall o : pyobj, (forall w, o <> PVar w) ->
                     add_variable chain_network o = Raise TypeError) /\
  (forall (o : pyobj) (e : exn),
      add_variable chain_network o = Raise e ->
      e = TypeError /\ forall w, o <> PVar w).
Proof.
  split.
  - reflexivity.
  - apply (add_variable_replaces chain_network A_again A). reflexivity.
Defined.

(** C9, the claim as written fails: adding a second instance named A to the
    chain raises nothing, and A now names the second instance. *)
Lemma add_variable_duplicate_accepted :
  vdict_get "A" (variables chain_network) = Some A /\
  add_variable chain_network (PVar A_again) =
    Ok (mkNetwork [(A, [B])] [("A", A_again); ("B", B)]) /\
  (forall e : exn, add_variable chain_network (PVar A_again) <> Raise e) /\
  var_eqb A A_again = false.
Proof.
  repeat split; try reflexivity. discriminate.
Qed.

(** * Further properties of the code *)

(** ** When [sorted_nodes] ends *)

Lemma var_eqb_trans_l (a b c : Var) :
  var_eqb a b = true -> var_eqb a c = var_eqb b c.
Proof.
  unfold var_eqb. intros H. apply Nat.eqb_eq in H. now rewrite H.
Qed.

Lemma edict_get_eqb (a b : Var) (d : edict) :
  var_eqb a b = true -> edict_get a d = edict_get b d.
Proof.
  intros H. induction d as [|[k l] d IH]; simpl; [reflexivity|].
  now rewrite (var_eqb_trans_l a b k H), IH.
Qed.

Lemma edict_get_set (k n : Var) (l : list Var) (d : edict) :
  edict_get k (edict_set n l d) =
  if var_eqb k n then Some l else edict_get k d.
Proof.
  destruct (var_eqb k n) eqn:E.
  - rewrite (edict_get_eqb k n _ E). apply edict_get_set_same.
  - induction d as [|[k' l'] d IH]; simpl.
    + now rewrite E.
    + destruct (var_eqb n k') eqn:E'; simpl.
      * assert (var_eqb k k' = false) as ->.
        { unfold var_eqb in *. apply Nat.eqb_eq in E'.
          apply Nat.eqb_neq in E. apply Nat.eqb_neq. congruence. }
        reflexivity.
      * destruct (var_eqb k k'); auto.
Qed.

(** Looking up a key that is not there adds an empty list, and no child. *)
Lemma has_children_default (n k : Var) (d : edict) :
  has_children (snd (edict_default n d)) k = has_children d k.
Proof.
  unfold edict_default, has_children.
  destruct (edict_get n d) as [l|] eqn:E; simpl; [reflexivity|].
  rewrite edict_get_set. destruct (var_eqb k n) eqn:Ek; [|reflexivity].
  now rewrite (edict_get_eqb k n d Ek), E.
Qed.

Lemma inner_while_skipped (fuel : nat) (n : Var) (st : sn_state) :
  has_children (edge_dict st) n = false ->
  inner_while fuel n st =
  Some (mkState (l_sorted st) (s_origin_nodes st)
                (snd (edict_default n (edge_dict st)))
                (children_of_variable st)).
Proof.
  unfold has_children, edict_default. intros H.
  destruct fuel; simpl; unfold edict_default;
    destruct (edict_get n (edge_dict st)) as [[|c l]|];
    try discriminate; reflexivity.
Qed.

Lemma has_children_true (d : edict) (n : Var) :
  has_children d n = true -> exists c l, edict_get n d = Some (c :: l).
Proof.
  unfold has_children. destruct (edict_get n d) as [[|c l]|];
    try discriminate. eauto.
Qed.

Lemma existsb_pointwise {T : Type} (f g : T -> bool) (l : list T) :
  (forall x, f x = g x) -> existsb f l = existsb g l.
Proof.
  intros H. induction l as [|x l IH]; simpl; [reflexivity|].
  now rewrite H, IH.
Qed.

Lemma outer_while_loops (os : list Var) :
  forall (fuel : nat) (st : sn_state),
    s_origin_nodes st = os ->
    existsb (has_children (edge_dict st)) os = true ->
    outer_while fuel st = None.
Proof.
  induction os as [|n os IH] using rev_ind; intros fuel st Hs Hex.
  - discriminate.
  - destruct fuel as [|f]; simpl; rewrite Hs, list_pop_last; [reflexivity|].
    destruct (has_children (edge_dict st) n) eqn:Hn.
    + destruct (has_children_true _ _ Hn) as [c [l Hc]].
      erewrite inner_while_diverges; [reflexivity | exact Hc].
    + rewrite inner_while_skipped by exact Hn.
      cbn [l_sorted s_origin_nodes edge_dict children_of_variable].
      apply IH; [reflexivity|]. cbn [edge_dict].
      rewrite existsb_app in Hex. simpl in Hex. rewrite Hn in Hex.
      rewrite orb_false_r in Hex.
      rewrite <- Hex. apply existsb_pointwise. intros k.
      apply has_children_default.
Qed.

Lemma outer_while_ends (os : list Var) :
  forall (fuel : nat) (st : sn_state),
    s_origin_nodes st = os ->
    existsb (has_children (edge_dict st)) os = false ->
    (length os <= fuel)%nat ->
    exists st', outer_while fuel st = Some st' /\
                children_of_variable st' = children_of_variable st /\
                l_sorted st' = l_sorted st ++ rev os.
Proof.
  induction os as [|n os IH] using rev_ind; intros fuel st Hs Hex Hf.
  - exists st. destruct fuel; simpl; rewrite Hs; simpl;
      rewrite app_nil_r; auto.
  - rewrite length_app in Hf. simpl in Hf.
    destruct fuel as [|f]; [lia|]. simpl. rewrite Hs, list_pop_last.
    rewrite existsb_app in Hex. apply orb_false_iff in Hex as [Hos Hn].
    simpl in Hn. rewrite orb_false_r in Hn.
    rewrite inner_while_skipped by exact Hn.
    cbn [l_sorted s_origin_nodes edge_dict children_of_variable].
    destruct (IH f (mkState (l_sorted st ++ [n]) os
                      (snd (edict_default n (edge_dict st)))
                      (children_of_variable st)))
      as [st' [E [Hc Hl]]].
    + reflexivity.
    + cbn [edge_dict]. rewrite <- Hos. apply existsb_pointwise. intros k.
      apply has_children_default.
    + lia.
    + exists st'. split; [exact E|]. split; [exact Hc|].
      rewrite Hl. cbn [l_sorted]. rewrite rev_app_distr. simpl.
      now rewrite <- app_assoc.
Qed.

(** X1.  [sorted_nodes] never returns as soon as one parentless variable has
    a child under [self.edges]: whatever the fuel, the run is still going. *)
Theorem sorted_nodes_loops_when_origin_has_child :
  forall (self : BayesianNetwork),
    existsb (has_children (edges self)) (origins self) = true ->
    forall fuel : nat, sorted_nodes fuel self = None.
Proof.
  intros self H fuel. unfold sorted_nodes.
  fold (origins self).
  now rewrite (outer_while_loops (origins self)).
Qed.

Lemma sorted_nodes_loops_when_origin_has_child_witness :
  existsb (has_children (edges main_network)) (origins main_network) = true /\
  sorted_nodes 7 main_network = None.
Proof.
  split.
  - reflexivity.
  - apply sorted_nodes_loops_when_origin_has_child. reflexivity.
Defined.

(** X2.  When no parentless variable has a child, [sorted_nodes] ends after
    one turn of the outer loop per parentless variable, and then line 206
    raises [KeyError] on the first registered variable. *)
Theorem sorted_nodes_ends_in_key_error :
  forall (self : BayesianNetwork) (fuel : nat),
    existsb (has_children (edges self)) (origins self) = false ->
    variables self <> [] ->
    (length (origins self) <= fuel)%nat ->
    sorted_nodes fuel self = Some (Raise KeyError).
Proof.
  intros self fuel H Hv Hf. unfold sorted_nodes. fold (origins self).
  destruct (outer_while_ends (origins self) fuel
              (mkState [] (origins self) (edges self) []))
    as [st' [E [Hc _]]]; auto.
  rewrite E. cbn [children_of_variable] in Hc.
  destruct (variables self) as [|[k v] vs]; [congruence|].
  simpl. rewrite Hc. reflexivity.
Qed.

Lemma sorted_nodes_ends_in_key_error_witness :
  existsb (has_children (edges (bayesian_network single_engine)))
          (origins (bayesian_network single_engine)) = false /\
  variables (bayesian_network single_engine) <> [] /\
  (length (origins (bayesian_network single_engine)) <= 1)%nat /\
  sorted_nodes 1 (bayesian_network single_engine) = Some (Raise KeyError).
Proof.
  split; [reflexivity|]. split; [discriminate|]. split; [simpl; lia|].
  apply sorted_nodes_ends_in_key_error;
    [reflexivity | discriminate | simpl; lia].
Defined.

(** X3.  The constructor of the engine succeeds on the network without
    variables only, and the engine it builds answers every call of
    [_enumeration_ask] and [query] with [KeyError]. *)
Theorem engine_only_over_no_variables :
  forall (fuel : nat) (bn : BayesianNetwork) (eng : InferenceByEnumeration),
    InferenceByEnumeration_init fuel bn = Some (Ok eng) ->
    variables bn = [] /\
    eng = mkEngine bn (RetList []) /\
    forall (X : string) (evidence : dict) (addr : nat),
      _enumeration_ask eng X evidence = Raise KeyError /\
      query eng addr X evidence = Raise KeyError.
Proof.
  intros fuel bn eng. unfold InferenceByEnumeration_init.
  destruct (sorted_nodes_cases fuel bn) as [E|[E|[Hv E]]]; rewrite E;
    try discriminate.
  intros H. injection H as <-. repeat split; auto;
    unfold query, _enumeration_ask; cbn [bayesian_network];
    rewrite Hv; reflexivity.
Qed.

Lemma engine_only_over_no_variables_witness :
  InferenceByEnumeration_init 0 empty_network = Some (Ok empty_engine) /\
  variables empty_network = [] /\
  empty_engine = mkEngine empty_network (RetList []) /\
  forall (X : string) (evidence : dict) (addr : nat),
    _enumeration_ask empty_engine X evidence = Raise KeyError /\
    query empty_engine addr X evidence = Raise KeyError.
Proof.
  split; [reflexivity|].
  apply (engine_only_over_no_variables 0 empty_network empty_engine).
  reflexivity.
Defined.

(** ** [Variable.__init__] and [Variable.probability] *)

Lemma zprod_nonneg (l : list Z) :
  (forall c, In c l -> 0 <= c) -> 0 <= zprod l.
Proof.
  unfold zprod. induction l as [|c l IH]; intros H; cbn [fold_right]; [lia|].
  assert (0 <= c) by (apply H; now left).
  assert (0 <= fold_right Z.mul 1 l) by (apply IH; intros; apply H; now right).
  nia.
Qed.

(** X4.  A [Variable] that the constructor returns (cardinalities within
    int64) holds the arguments as given, has as many rows as states and as
    many parents as cardinalities; every row is as long as
    [np.prod(no_parent_states)], the int64 product: the product of the
    cardinalities when these are not negative and multiply to less than
    2^63, its wrap-around otherwise. *)
Theorem Variable_init_invariants :
  forall (addr : nat) (nm : string) (n : Z) (t : list (list Q))
         (ps : list string) (nps : list Z) (v : Var),
    forallb fits_int64 nps = true ->
    Variable_init addr nm n t ps nps = Ok v ->
    v = mkVariable addr nm n t ps nps /\
    Z.of_nat (length t) = n /\
    length ps = length nps /\
    (forall row, In row t -> Z.of_nat (length row) = wrap64 (zprod nps)) /\
    ((forall c, In c nps -> 0 <= c) -> zprod nps < 2 ^ 63 ->
     forall row, In row t -> Z.of_nat (length row) = zprod nps).
Proof.
  intros addr nm n t ps nps v _ Hv.
  destruct (Variable_init_ok _ _ _ _ _ _ _ Hv)
    as [-> [Hrows [L [r [rs [-> [Hcols Hrect]]]]]]].
  assert (Hrow : forall row, In row (r :: rs) ->
                             Z.of_nat (length row) = wrap64 (zprod nps)).
  { intros row [<-|Hin]; [exact Hcols|].
    rewrite forallb_forall in Hrect.
    apply Hrect in Hin. apply Nat.eqb_eq in Hin. now rewrite Hin. }
  repeat split; auto.
  intros Hpos Hlt row Hin. rewrite (Hrow row Hin).
  apply wrap64_small. pose proof (zprod_nonneg nps Hpos). lia.
Qed.

Lemma Variable_init_invariants_witness :
  forallb fits_int64 [274177; 67280421310721] = true /\
  Variable_init 9 "X" 1 [[1]]%Q ["p"; "q"] [274177; 67280421310721]
  = Ok wrapped /\
  (forall row, In row (table wrapped) -> Z.of_nat (length row) = 1).
Proof.
  split; [reflexivity|]. split; [reflexivity|].
  apply (Variable_init_invariants 9 "X" 1 [[1]]%Q ["p"; "q"]
           [274177; 67280421310721] wrapped); reflexivity.
Defined.

(** X5.  A state below 0 or not below [no_states] gives [ValueError],
    whatever the mapping holds: a negative state never reaches the table,
    where it would count rows from the end. *)
Theorem probability_state_out_of_range :
  forall (self : Var) (st : Z) (ps : dict),
    st < 0 \/ no_states self <= st ->
    probability self (PInt st) (PDict ps) = Raise ValueError.
Proof.
  intros self st ps H. unfold probability, probability_of_int.
  cbn [is_int is_dict negb].
  destruct (Z.geb_spec st (no_states self)); [reflexivity|].
  destruct (Z.ltb_spec st 0); [reflexivity|lia].
Qed.

Lemma probability_state_out_of_range_witness :
  (-1 < 0 \/ no_states event <= -1) /\
  probability event (PInt (-1))
    (PDict [(KStr "cond0", VInt 1); (KStr "cond1", VInt 1)])
  = Raise ValueError.
Proof.
  split; [left; lia|].
  apply probability_state_out_of_range. left. lia.
Defined.

Lemma list_index_in (x : string) (l : list string) :
  In x l -> exists i, list_index x l = Some i.
Proof.
  induction l as [|y l IH]; simpl; [tauto|]. intros H.
  destruct (String.eqb_spec x y) as [->|Hne]; [eauto|].
  destruct H as [->|H]; [congruence|].
  destruct (IH H) as [i ->]. eauto.
Qed.

Lemma int64_values_get (d : dict) (k : pykey) (v : pyval) :
  int64_values d = true -> dict_get k d = Some v ->
  exists z, v = VInt z /\ fits_int64 z = true.
Proof.
  induction d as [|[k' v'] d IH]; simpl; [discriminate|].
  intros H. apply andb_true_iff in H as [Hv Hd].
  destruct (key_eqb k k').
  - intros E. injection E as <-. destruct v'; [eauto|discriminate].
  - now apply IH.
Qed.

(** An int within int64 is multiplied without an exception. *)
Lemma np_times_returns (z : Z) (prefix : list Z) :
  fits_int64 z = true -> exists t, np_times z prefix = Ok t.
Proof.
  intros H. unfold np_times. destruct prefix as [|c prefix].
  - unfold py_float. unfold fits_int64 in H.
    apply andb_true_iff in H as [H1 H2].
    apply Z.leb_le in H1. apply Z.ltb_lt in H2.
    destruct (Z.ltb_spec (Z.abs z) (2 ^ 1024 - 2 ^ 970)); [eauto|lia].
  - rewrite H. eauto.
Qed.

Lemma probability_loop_missing (self : Var) (ps : dict) (rest : list string) :
  forall acc : float64,
    (forall p, In p rest -> In p (parents self)) ->
    int64_values ps = true ->
    (exists p, In p rest /\ dict_mem (KStr p) ps = false) ->
    probability_loop self ps rest acc = Raise ValueError.
Proof.
  induction rest as [|x rest IH]; intros acc Hsub Hint [p [Hin Hp]].
  - destruct Hin.
  - simpl. destruct (dict_mem (KStr x) ps) eqn:Hx; [|reflexivity].
    cbn [negb].
    destruct (list_index_in x (parents self)) as [i ->];
      [apply Hsub; now left|].
    unfold dict_mem in Hx.
    destruct (dict_get (KStr x) ps) as [v|] eqn:Hg; [|discriminate].
    destruct (int64_values_get _ _ _ Hint Hg) as [z [-> Hz]].
    destruct (np_times_returns z (firstn i (no_parent_states self)) Hz)
      as [t ->].
    cbn [bind]. apply IH; auto.
    + intros q Hq. apply Hsub. now right.
    + exists p. split; [|exact Hp].
      destruct Hin as [->|Hin]; [|exact Hin].
      unfold dict_mem in Hp. rewrite Hg in Hp. discriminate.
Qed.

Lemma probability_of_int_missing (self : Var) (st : Z) (ps : dict)
    (p : string) :
  0 <= st < no_states self ->
  int64_values ps = true ->
  In p (parents self) ->
  dict_mem (KStr p) ps = false ->
  probability_of_int self st ps = Raise ValueError.
Proof.
  intros Hst Hint Hin Hp. unfold probability_of_int.
  destruct (Z.geb_spec st (no_states self)); [reflexivity|].
  destruct (Z.ltb_spec st 0); [reflexivity|].
  rewrite probability_loop_missing; eauto.
Qed.

(** X6.  With a state in range, cardinalities within int64 and a mapping of
    names to ints within int64 that lacks one of the declared parents,
    [probability] raises [ValueError]. *)
Theorem probability_missing_parent :
  forall (self : Var) (st : Z) (ps : dict) (p : string),
    0 <= st < no_states self ->
    forallb fits_int64 (no_parent_states self) = true ->
    int64_values ps = true ->
    In p (parents self) ->
    dict_mem (KStr p) ps = false ->
    probability self (PInt st) (PDict ps) = Raise ValueError.
Proof.
  intros self st ps p Hst _ Hint Hin Hp.
  unfold probability. cbn [is_int is_dict negb].
  now rewrite (probability_of_int_missing self st ps p).
Qed.

Lemma probability_missing_parent_witness :
  0 <= 0 < no_states event /\
  forallb fits_int64 (no_parent_states event) = true /\
  int64_values [(KStr "cond0", VInt 1)] = true /\
  In "cond1" (parents event) /\
  dict_mem (KStr "cond1") [(KStr "cond0", VInt 1)] = false /\
  probability event (PInt 0) (PDict [(KStr "cond0", VInt 1)])
  = Raise ValueError.
Proof.
  split; [simpl; lia|]. split; [reflexivity|]. split; [reflexivity|].
  split; [simpl; auto|]. split; [reflexivity|].
  apply (probability_missing_parent event 0 [(KStr "cond0", VInt 1)]
           "cond1");
    [simpl; lia | reflexivity | reflexivity | simpl; auto | reflexivity].
Defined.

Lemma probability_loop_agree (self : Var) (ps1 ps2 : dict)
    (rest : list string) :
  forall acc : float64,
    (forall p, In p rest ->
               dict_get (KStr p) ps1 = dict_get (KStr p) ps2) ->
    probability_loop self ps1 rest acc = probability_loop self ps2 rest acc.
Proof.
  induction rest as [|x rest IH]; intros acc H; [reflexivity|].
  simpl. unfold dict_mem. rewrite (H x (or_introl eq_refl)).
  destruct (dict_get (KStr x) ps2) as [[z|w]|]; cbn [negb]; try reflexivity.
  destruct (list_index x (parents self)) as [i|]; [|reflexivity].
  destruct (np_times z (firstn i (no_parent_states self))) as [t|e];
    [|reflexivity].
  cbn [bind]. apply IH. intros p Hp. apply H. now right.
Qed.

Lemma probability_of_int_agree (self : Var) (st : Z) (ps1 ps2 : dict) :
  (forall p, In p (parents self) ->
             dict_get (KStr p) ps1 = dict_get (KStr p) ps2) ->
  probability_of_int self st ps1 = probability_of_int self st ps2.
Proof.
  intros H. unfold probability_of_int.
  now rewrite (probability_loop_agree self ps1 ps2).
Qed.

Lemma probability_agree (self : Var) (state : pyobj) (ps1 ps2 : dict) :
  (forall p, In p (parents self) ->
             dict_get (KStr p) ps1 = dict_get (KStr p) ps2) ->
  probability self state (PDict ps1) = probability self state (PDict ps2).
Proof.
  intros H. unfold probability. cbn [is_dict negb].
  destruct state; cbn [is_int negb]; try reflexivity.
  - now rewrite (probability_of_int_agree self z ps1 ps2).
  - now rewrite (probability_loop_agree self ps1 ps2).
Qed.

Lemma dict_get_projection (evidence : dict) (names : list string)
    (p : string) :
  In p names ->
  dict_get (KStr p) (projection evidence names) = dict_get (KStr p) evidence.
Proof.
  intros Hin. unfold projection.
  induction evidence as [|[k v] d IH]; [reflexivity|].
  cbn [filter fst dict_get].
  destruct k as [s|w].
  - destruct (existsb (String.eqb s) names) eqn:E.
    + cbn [dict_get]. destruct (key_eqb (KStr p) (KStr s)); auto.
    + cbn [key_eqb]. destruct (String.eqb_spec p s) as [->|_]; [|exact IH].
      exfalso. assert (existsb (String.eqb s) names = true).
      { apply existsb_exists. exists s. split; [exact Hin|].
        apply String.eqb_refl. }
      congruence.
  - cbn [key_eqb]. exact IH.
Qed.

(** X7.  [probability] reads the mapping at the declared parents only: two
    mappings that agree there give the same outcome, value or exception; so
    does a mapping and its restriction to the parents' names. *)
Theorem probability_reads_parents_only :
  forall (self : Var) (state : pyobj) (ps1 ps2 : dict),
    (forall p, In p (parents self) ->
               dict_get (KStr p) ps1 = dict_get (KStr p) ps2) ->
    probability self state (PDict ps1) = probability self state (PDict ps2) /\
    probability self state (PDict (projection ps1 (parents self)))
    = probability self state (PDict ps1).
Proof.
  intros self state ps1 ps2 H. split.
  - now apply probability_agree.
  - apply probability_agree. intros p Hp. now apply dict_get_projection.
Qed.

Lemma probability_reads_parents_only_witness :
  probability B (PInt 0) (PDict [(KStr "A", VInt 1); (KStr "C", VInt 0)])
  = probability B (PInt 0) (PDict [(KStr "D", VInt 1); (KStr "A", VInt 1)]).
Proof.
  apply (probability_reads_parents_only B (PInt 0)
           [(KStr "A", VInt 1); (KStr "C", VInt 0)]
           [(KStr "D", VInt 1); (KStr "A", VInt 1)]).
  intros p [<-|[]]. reflexivity.
Defined.

Lemma np_getitem2_entry (t : list (list Q)) (i j : Z) (p : Q) :
  0 <= i ->
  np_getitem2 t i j = Ok p ->
  exists row, nth_error t (Z.to_nat i) = Some row /\ In p row.
Proof.
  intros Hi. unfold np_getitem2, np_axis.
  destruct (Z.leb_spec 0 i); [|lia].
  destruct (i <? Z.of_nat (length t)); [|discriminate].
  destruct (nth_error t (Z.to_nat i)) as [row|]; [|discriminate].
  destruct (if 0 <=? j
            then if j <? Z.of_nat (length row) then Some (Z.to_nat j) else None
            else if - Z.of_nat (length row) <=? j
                 then Some (Z.to_nat (j + Z.of_nat (length row)))
                 else None) as [c|]; [|discriminate].
  destruct (nth_error row c) as [q|] eqn:E; [|discriminate].
  intros Hq. injection Hq as <-. exists row. split; [reflexivity|].
  eapply nth_error_In; eauto.
Qed.

Lemma np_getitem_bool_rows (t : list (list Q)) (b : bool) (j : Z)
    (rows : list (list Q)) :
  np_getitem_bool t b j = Ok rows -> forall row, In row rows -> In row t.
Proof.
  unfold np_getitem_bool. destruct b.
  - destruct (np_axis j (length t)) as [r|]; [|discriminate].
    destruct (nth_error t r) as [row0|] eqn:E; [|discriminate].
    intros H. injection H as <-. intros row [<-|[]].
    eapply nth_error_In; eauto.
  - intros H. injection H as <-. intros row [].
Qed.

(** X8.  What [probability] returns depends on the kind of the state.  For
    an [int] proper the state is within range and the result is a scalar, an
    entry of the table row of that state.  A [bool] state passes the [int]
    guard and the result is no scalar but an array, made of rows of the
    table.  Nothing is returned for any other state. *)
Theorem probability_returns_table_entry :
  forall (self : Var) (state parentstates : pyobj) (r : pyret),
    probability self state parentstates = Ok r ->
    (exists (st : Z) (row : list Q) (p : Q),
        state = PInt st /\ r = Scalar p /\ 0 <= st < no_states self /\
        nth_error (table self) (Z.to_nat st) = Some row /\ In p row) \/
    (exists (b : bool) (rows : list (list Q)),
        state = PBool b /\ r = BoolIndexed rows /\
        (if b then 1 else 0) < no_states self /\
        forall row, In row rows -> In row (table self)).
Proof.
  intros self state parentstates r. unfold probability, probability_of_int.
  destruct state; cbn [is_int negb]; try discriminate;
    destruct parentstates; cbn [is_dict negb]; try discriminate.
  - destruct (Z.geb_spec z (no_states self)); [discriminate|].
    destruct (Z.ltb_spec z 0); [discriminate|].
    destruct (probability_loop self d (parents self) (Finite 0)) as [c|e];
      [|discriminate].
    cbn [bind]. destruct (py_int c) as [j|e]; [|discriminate]. cbn [bind].
    destruct (np_getitem2 (table self) z j) as [p|e] eqn:Hget;
      [|discriminate].
    cbn [bind]. intros Hr. injection Hr as <-. left.
    assert (Hz : 0 <= z) by lia.
    destruct (np_getitem2_entry _ _ _ _ Hz Hget) as [row [Hrow Hin]].
    exists z, row, p. repeat split; auto; lia.
  - destruct (Z.geb_spec (if b then 1 else 0) (no_states self));
      [discriminate|].
    destruct (Z.ltb_spec (if b then 1 else 0) 0); [discriminate|].
    destruct (probability_loop self d (parents self) (Finite 0)) as [c|e];
      [|discriminate].
    cbn [bind]. destruct (py_int c) as [j|e]; [|discriminate]. cbn [bind].
    destruct (np_getitem_bool (table self) b j) as [rows|e] eqn:Hget;
      [|discriminate].
    cbn [bind]. intros Hr. injection Hr as <-. right.
    exists b, rows. repeat split; auto.
    eapply np_getitem_bool_rows; eauto.
Qed.

Lemma probability_returns_table_entry_witness :
  probability A (PBool true) (PDict []) = Ok (BoolIndexed [[8 # 10]]%Q) /\
  ((exists (st : Z) (row : list Q) (p : Q),
       PBool true = PInt st /\ BoolIndexed [[8 # 10]]%Q = Scalar p /\
       0 <= st < no_states A /\
       nth_error (table A) (Z.to_nat st) = Some row /\ In p row) \/
   (exists (b : bool) (rows : list (list Q)),
       PBool true = PBool b /\ BoolIndexed [[8 # 10]]%Q = BoolIndexed rows /\
       (if b then 1 else 0) < no_states A /\
       forall row, In row rows -> In row (table A))).
Proof.
  split; [reflexivity|].
  apply (probability_returns_table_entry A (PBool true) (PDict [])).
  reflexivity.
Defined.

(** ** Building a network *)

(** X9.  After [add_variable(v)] the name of [v] leads to [v], every other
    name leads where it led before, and the edges are untouched. *)
Theorem add_variable_then_lookup :
  forall (self : BayesianNetwork) (v : Var),
    exists self' : BayesianNetwork,
      add_variable self (PVar v) = Ok self' /\
      vdict_get (name v) (variables self') = Some v /\
      (forall k, k <> name v ->
                 vdict_get k (variables self') = vdict_get k (variables self)) /\
      edges self' = edges self.
Proof.
  intros self v. eexists. split; [reflexivity|]. cbn [variables edges].
  repeat split.
  - apply vdict_get_set_same.
  - intros k Hk. now apply vdict_get_set_other.
Qed.

Lemma var_in_false (x : Var) (l : list Var) :
  (forall w, In w l -> var_eqb x w = false) -> var_in x l = false.
Proof.
  unfold var_in. induction l as [|w l IH]; intros H; [reflexivity|].
  simpl. rewrite (H w (or_introl eq_refl)). apply IH.
  intros w' Hw. apply H. now right.
Qed.

Lemma replaced_instance_is_gone (old v : Var) (nm : string) (d : vdict) :
  unique_names d ->
  (forall k w, In (k, w) d -> var_eqb old w = true -> k = nm) ->
  var_eqb old v = false ->
  var_in old (map snd (vdict_set nm v d)) = false.
Proof.
  unfold unique_names. intros ND Honly Hv.
  induction d as [|[k0 w0] d IH]; simpl.
  - unfold var_in. simpl. now rewrite Hv.
  - inversion ND as [|? ? Hnotin ND']; subst.
    destruct (String.eqb_spec nm k0) as [->|Hne].
    + unfold var_in. simpl. rewrite Hv. simpl.
      apply var_in_false. intros w Hw.
      apply in_map_iff in Hw as [[k w'] [Heq Hin]]. simpl in Heq. subst w'.
      destruct (var_eqb old w) eqn:E; [|reflexivity].
      exfalso. apply Hnotin.
      assert (k = k0) as <- by (apply (Honly k w); [now right|exact E]).
      apply in_map_iff. exists (k, w). auto.
    + unfold var_in. simpl.
      destruct (var_eqb old w0) eqn:E.
      * exfalso. apply Hne. symmetry. apply (Honly k0 w0); [now left|exact E].
      * simpl. apply IH; [exact ND'|].
        intros k w Hin. apply Honly. now right.
Qed.

(** X10.  Once [add_variable] has put [v] under its name, an instance [old]
    that was registered under that name only is no endpoint any more:
    [add_edge] raises [ValueError] with [old] as parent as well as with [old]
    as child. *)
Theorem add_edge_after_replacement :
  forall (self : BayesianNetwork) (v old x : Var),
    unique_names (variables self) ->
    (forall k w, In (k, w) (variables self) ->
                 var_eqb old w = true -> k = name v) ->
    var_eqb old v = false ->
    exists self' : BayesianNetwork,
      add_variable self (PVar v) = Ok self' /\
      add_edge self' old x = Raise ValueError /\
      add_edge self' x old = Raise ValueError.
Proof.
  intros self v old x ND Honly Hv. eexists. split; [reflexivity|].
  unfold add_edge. cbn [variables].
  rewrite (replaced_instance_is_gone old v (name v) _ ND Honly Hv).
  split; [reflexivity|].
  destruct (var_in x _); reflexivity.
Qed.

Lemma add_edge_after_replacement_witness :
  exists self' : BayesianNetwork,
    add_variable chain_network (PVar A_again) = Ok self' /\
    add_edge self' A B = Raise ValueError /\
    add_edge self' B A = Raise ValueError.
Proof.
  apply (add_edge_after_replacement chain_network A_again A B).
  - repeat constructor; simpl; intuition discriminate.
  - intros k w [H|[H|[]]]; injection H as <- <-; intros E;
      [reflexivity | discriminate].
  - reflexivity.
Defined.

(** *** [add_edge], [all_edges] and [no_parents] *)

Lemma unique_keys_get (d : edict) (k : Var) (l : list Var) :
  unique_keys d -> In (k, l) d -> edict_get k d = Some l.
Proof.
  unfold unique_keys. induction d as [|[k0 l0] d IH]; intros ND Hin.
  - destruct Hin.
  - simpl in ND. inversion ND as [|? ? Hnotin ND']; subst.
    destruct Hin as [H|Hin].
    + injection H as -> ->. simpl. now rewrite var_eqb_refl.
    + simpl. destruct (var_eqb k k0) eqn:E.
      * exfalso. apply Hnotin. unfold var_eqb in E. apply Nat.eqb_eq in E.
        rewrite <- E. apply in_map_iff. exists (k, l). auto.
      * now apply IH.
Qed.

Lemma all_edges_entry_pairs (self : BayesianNetwork) :
  unique_keys (edges self) -> all_edges self = entry_pairs (edges self).
Proof.
  intros U. unfold all_edges, entry_pairs.
  assert (H : forall d0, (forall kl, In kl d0 -> In kl (edges self)) ->
    flat_map
      (fun key => map (fun value => (key, value))
         match edict_get key (edges self) with
         | Some l => l
         | None => []
         end) (map fst d0)
    = flat_map (fun kl => map (fun value => (fst kl, value)) (snd kl)) d0).
  { induction d0 as [|[k l] d0 IH]; intros Hsub; [reflexivity|].
    simpl. rewrite (unique_keys_get _ k l U) by (apply Hsub; now left).
    f_equal. apply IH. intros kl Hkl. apply Hsub. now right. }
  apply H. auto.
Qed.

Lemma no_parents_acc (u : Var) (l : list (Var * Var)) :
  forall a : Z,
    fold_left (fun result edge =>
                 if var_eqb (snd edge) u then result + 1 else result) l a
    = a + no_parents u l.
Proof.
  unfold no_parents. induction l as [|e l IH]; intros a; [simpl; lia|].
  cbn [fold_left]. destruct (var_eqb (snd e) u).
  - rewrite (IH (a + 1)), (IH (0 + 1)). lia.
  - apply IH.
Qed.

Lemma no_parents_app (u : Var) (l1 l2 : list (Var * Var)) :
  no_parents u (l1 ++ l2) = no_parents u l1 + no_parents u l2.
Proof.
  unfold no_parents at 1. rewrite fold_left_app.
  fold (no_parents u l1). apply no_parents_acc.
Qed.

Lemma no_parents_cons (u : Var) (e : Var * Var) (l : list (Var * Var)) :
  no_parents u (e :: l)
  = (if var_eqb (snd e) u then 1 else 0) + no_parents u l.
Proof.
  change (e :: l) with ([e] ++ l). rewrite no_parents_app.
  unfold no_parents at 1. simpl. destruct (var_eqb (snd e) u); reflexivity.
Qed.

Lemma no_parents_new_child (u k t : Var) (l : list Var) :
  no_parents u (map (fun value => (k, value)) (l ++ [t]))
  = no_parents u (map (fun value => (k, value)) l)
    + (if var_eqb t u then 1 else 0).
Proof.
  rewrite map_app, no_parents_app. cbn [map].
  rewrite no_parents_cons. cbn [snd].
  change (no_parents u []) with 0.
  destruct (var_eqb t u); lia.
Qed.

Lemma edict_set_absent (k : Var) (l : list Var) (d : edict) :
  edict_get k d = None -> edict_set k l d = d ++ [(k, l)].
Proof.
  induction d as [|[k0 l0] d IH]; simpl; [reflexivity|].
  destruct (var_eqb k k0); [discriminate|]. intros H. now rewrite IH.
Qed.

Lemma edict_get_absent_key (k : Var) (d : edict) :
  edict_get k d = None -> ~ In (oid k) (map (fun kl => oid (fst kl)) d).
Proof.
  induction d as [|[k0 l0] d IH]; simpl; [tauto|].
  destruct (var_eqb k k0) eqn:E; [discriminate|].
  intros H [H0|H0]; [|now apply IH].
  unfold var_eqb in E. apply Nat.eqb_neq in E. congruence.
Qed.

Lemma edict_set_keys (k : Var) (l l0 : list Var) (d : edict) :
  edict_get k d = Some l0 ->
  map (fun kl => oid (fst kl)) (edict_set k l d)
  = map (fun kl => oid (fst kl)) d.
Proof.
  induction d as [|[k0 l1] d IH]; simpl; [discriminate|].
  destruct (var_eqb k k0); simpl; [reflexivity|].
  intros H. now rewrite IH.
Qed.

Lemma entry_pairs_set (u k t : Var) (l : list Var) (d : edict) :
  edict_get k d = Some l ->
  no_parents u (entry_pairs (edict_set k (l ++ [t]) d))
  = no_parents u (entry_pairs d) + (if var_eqb t u then 1 else 0).
Proof.
  unfold entry_pairs.
  induction d as [|[k0 l0] d IH]; simpl; [discriminate|].
  destruct (var_eqb k k0); simpl.
  - intros H. injection H as ->.
    rewrite !no_parents_app, no_parents_new_child. lia.
  - intros H. rewrite !no_parents_app, IH by exact H. lia.
Qed.

Lemma count_pair_app (a b : Var) (l1 l2 : list (Var * Var)) :
  count_pair a b (l1 ++ l2) = count_pair a b l1 + count_pair a b l2.
Proof. unfold count_pair. rewrite filter_app, length_app. lia. Qed.

Lemma entry_pairs_set_pair (a b k t : Var) (l : list Var) (d : edict) :
  edict_get k d = Some l ->
  count_pair a b (entry_pairs (edict_set k (l ++ [t]) d))
  = count_pair a b (entry_pairs d)
    + (if var_eqb k a && var_eqb t b then 1 else 0).
Proof.
  unfold entry_pairs.
  induction d as [|[k0 l0] d IH]; simpl; [discriminate|].
  destruct (var_eqb k k0) eqn:Ek; simpl.
  - intros H. injection H as ->.
    rewrite map_app, !count_pair_app. cbn [map].
    rewrite (var_eqb_trans_l k k0 a Ek).
    unfold count_pair at 2. cbn [filter fst snd].
    destruct (var_eqb k0 a && var_eqb t b); simpl; lia.
  - intros H. rewrite !count_pair_app, IH by exact H. lia.
Qed.

(** What [self.edges[parent].append(child)] does to the pairs. *)
Lemma edges_after_append (f t : Var) (d : edict) :
  unique_keys d ->
  unique_keys (edict_set f (fst (edict_default f d) ++ [t])
                           (snd (edict_default f d))) /\
  (forall u,
      no_parents u
        (entry_pairs (edict_set f (fst (edict_default f d) ++ [t])
                                  (snd (edict_default f d))))
      = no_parents u (entry_pairs d) + (if var_eqb t u then 1 else 0)) /\
  (forall a b,
      count_pair a b
        (entry_pairs (edict_set f (fst (edict_default f d) ++ [t])
                                  (snd (edict_default f d))))
      = count_pair a b (entry_pairs d)
        + (if var_eqb f a && var_eqb t b then 1 else 0)).
Proof.
  intros U. unfold edict_default.
  destruct (edict_get f d) as [l|] eqn:E; cbn [fst snd].
  - split; [|split].
    + unfold unique_keys. now rewrite (edict_set_keys _ _ l).
    + intros u. now apply entry_pairs_set.
    + intros a b. now apply entry_pairs_set_pair.
  - assert (E0 : edict_get f (edict_set f [] d) = Some [])
      by apply edict_get_set_same.
    assert (Hd : entry_pairs (edict_set f [] d) = entry_pairs d).
    { rewrite (edict_set_absent _ _ _ E). unfold entry_pairs.
      rewrite flat_map_app. simpl. now rewrite app_nil_r. }
    split; [|split].
    + unfold unique_keys. rewrite (edict_set_keys _ _ [] _ E0).
      rewrite (edict_set_absent _ _ _ E), map_app.
      apply NoDup_app; [exact U | repeat constructor; simpl; tauto |].
      intros a Ha [<-|[]]. revert Ha. now apply edict_get_absent_key.
    + intros u. rewrite <- Hd. now apply entry_pairs_set.
    + intros a b. rewrite <- Hd. now apply entry_pairs_set_pair.
Qed.

(** X11.  On a network whose [edges] has each key once, a successful
    [add_edge(parent, child)] leaves the variables as they are and adds to
    [all_edges] the pair of parent and child, once, and nothing else: the
    number of pairs (parent, child) goes up by one, the number of any other
    pair stays put; so [no_parents] goes up by one for the child and stays
    put for every other variable.  Nothing checks whether the pair was there
    already. *)
Theorem add_edge_adds_one_edge :
  forall (self self' : BayesianNetwork) (from_variable to_variable : Var),
    unique_keys (edges self) ->
    add_edge self from_variable to_variable = Ok self' ->
    variables self' = variables self /\
    unique_keys (edges self') /\
    count_pair from_variable to_variable (all_edges self')
    = count_pair from_variable to_variable (all_edges self) + 1 /\
    (forall a b,
        var_eqb from_variable a && var_eqb to_variable b = false ->
        count_pair a b (all_edges self') = count_pair a b (all_edges self)) /\
    no_parents to_variable (all_edges self')
    = no_parents to_variable (all_edges self) + 1 /\
    forall u, var_eqb to_variable u = false ->
              no_parents u (all_edges self') = no_parents u (all_edges self).
Proof.
  intros self self' f t U. unfold add_edge.
  destruct (var_in f (map snd (variables self))); cbn [negb]; [|discriminate].
  destruct (var_in t (map snd (variables self))); cbn [negb]; [|discriminate].
  destruct (edges_after_append f t (edges self) U) as [U' [HN HC]].
  destruct (edict_default f (edges self)) as [l d0]. cbn [fst snd] in *.
  intros H. injection H as <-. cbn [variables].
  split; [reflexivity|]. split; [exact U'|].
  rewrite (all_edges_entry_pairs (mkNetwork _ _)) by exact U'.
  rewrite (all_edges_entry_pairs self) by exact U. cbn [edges].
  split; [|split; [|split]].
  - now rewrite HC, !var_eqb_refl.
  - intros a b Hab. rewrite HC, Hab. lia.
  - now rewrite HN, var_eqb_refl.
  - intros u Hu. rewrite HN, Hu. lia.
Qed.

Lemma add_edge_adds_one_edge_witness :
  unique_keys (edges chain_network) /\
  add_edge chain_network A B
  = Ok (mkNetwork [(A, [B; B])] [("A", A); ("B", B)]) /\
  count_pair A B (all_edges (mkNetwork [(A, [B; B])] [("A", A); ("B", B)]))
  = count_pair A B (all_edges chain_network) + 1.
Proof.
  assert (U : unique_keys (edges chain_network)).
  { repeat constructor; simpl; tauto. }
  split; [exact U|]. split; [reflexivity|].
  apply (add_edge_adds_one_edge chain_network
           (mkNetwork [(A, [B; B])] [("A", A); ("B", B)]) A B U).
  reflexivity.
Defined.

(** ** The engine's methods *)

Lemma get_parents_loop_outcome (self : InferenceByEnumeration)
    (names : list string) :
  forall acc : list Var,
    match get_parents_loop self names acc with
    | Ok ps =>
        exists found, ps = acc ++ found /\
          map Some found
          = map (fun p => vdict_get p (variables (bayesian_network self)))
                names
    | Raise e =>
        e = KeyError /\
        exists p, In p names /\
          vdict_get p (variables (bayesian_network self)) = None
    end.
Proof.
  induction names as [|p names IH]; intros acc; simpl.
  - exists []. now rewrite app_nil_r.
  - destruct (vdict_get p (variables (bayesian_network self))) as [x|] eqn:E.
    + specialize (IH (acc ++ [x])).
      destruct (get_parents_loop self names (acc ++ [x])) as [ps|e].
      * destruct IH as [found [-> Hf]]. exists (x :: found).
        rewrite <- app_assoc. simpl. now rewrite Hf.
      * destruct IH as [-> [q [Hq Hn]]]. split; [reflexivity|].
        exists q. auto.
    + split; [reflexivity|]. exists p. auto.
Qed.

(** X12.  [get_parents] returns the instances registered under the declared
    parents' names, in the declared order; it raises, and then [KeyError],
    exactly when one of these names is not registered. *)
Theorem get_parents_outcome :
  forall (self : InferenceByEnumeration) (variable : Var),
    match get_parents self variable with
    | Ok ps =>
        map Some ps
        = map (fun p => vdict_get p (variables (bayesian_network self)))
              (parents variable)
    | Raise e =>
        e = KeyError /\
        exists p, In p (parents variable) /\
          vdict_get p (variables (bayesian_network self)) = None
    end.
Proof.
  intros self variable. unfold get_parents.
  pose proof (get_parents_loop_outcome self (parents variable) []) as H.
  destruct (get_parents_loop self (parents variable) []) as [ps|e];
    [|exact H].
  destruct H as [found [-> Hf]]. exact Hf.
Qed.

Lemma enumerate_all_rev_cons (self : InferenceByEnumeration)
    (y_variable : Var) (rest : list Var) (evidence : dict) :
  enumerate_all_rev self (y_variable :: rest) evidence =
  (_ <- get_parents self y_variable ;;
   if dict_mem (KObj y_variable) evidence then
     p <- probability_of_int y_variable (no_states y_variable) evidence ;;
     r <- enumerate_all_rev self rest evidence ;;
     Ok (fmul p r)
   else
     enumerate_sum self y_variable rest evidence
       (range (no_states y_variable)) evidence 0%Q).
Proof. reflexivity. Qed.

Lemma enumerate_all_last (self : InferenceByEnumeration)
    (vars : list Var) (y : Var) (evidence : dict) :
  _enumerate_all self (vars ++ [y]) evidence =
  (r <- enumerate_all_rev self (y :: rev vars) evidence ;;
   Ok (r, vars)).
Proof.
  unfold _enumerate_all. now rewrite rev_app_distr, removelast_last.
Qed.



Lemma range_from_zero (n : Z) :
  1 <= n -> exists l, range n = 0 :: l.
Proof.
  intros H. unfold range.
  destruct (Z.to_nat n) as [|k] eqn:E; [lia|].
  simpl. eauto.
Qed.

(** X14.  When the variable popped from [vars] is not a key itself, has a
    state, and one of its parents has no value in an evidence of names and
    ints within int64 (the cardinalities being within int64 too),
    [_enumerate_all] raises [ValueError] at the first lookup: with [pop]
    taking the last variable of a topological order, this is the fate of
    every child whose parent is unobserved. *)
Theorem enumerate_all_unvalued_parent :
  forall (self : InferenceByEnumeration) (vars ps : list Var) (y : Var)
         (evidence : dict) (p : string),
    get_parents self y = Ok ps ->
    dict_mem (KObj y) evidence = false ->
    1 <= no_states y ->
    forallb fits_int64 (no_parent_states y) = true ->
    int64_values evidence = true ->
    In p (parents y) ->
    dict_mem (KStr p) evidence = false ->
    _enumerate_all self (vars ++ [y]) evidence = Raise ValueError.
Proof.
  intros self vars ps y evidence p G Hk Hn _ Hint Hin Hp.
  rewrite enumerate_all_last, enumerate_all_rev_cons, G, Hk. cbn [bind].
  destruct (range_from_zero _ Hn) as [l ->]. cbn [enumerate_sum].
  rewrite (probability_of_int_missing y 0 evidence p); auto.
  lia.
Qed.

Lemma enumerate_all_unvalued_parent_witness :
  _enumerate_all chain_engine ([A] ++ [B]) [] = Raise ValueError.
Proof.
  apply (enumerate_all_unvalued_parent chain_engine [A] [A] B [] "A");
    try reflexivity; simpl; auto; lia.
Defined.

Lemma name_keyed_no_instance (d : dict) (y : Var) :
  name_keyed d = true -> dict_mem (KObj y) d = false.
Proof.
  unfold dict_mem. induction d as [|[k v] d IH]; [reflexivity|].
  cbn [name_keyed forallb fst]. intros H.
  apply andb_true_iff in H as [Hk Hd].
  destruct k; [|discriminate]. cbn [dict_get key_eqb]. now apply IH.
Qed.

Lemma name_keyed_set (d : dict) (s : string) (v : pyval) :
  name_keyed d = true -> name_keyed (dict_set (KStr s) v d) = true.
Proof.
  induction d as [|[k w] d IH]; [reflexivity|].
  cbn [name_keyed forallb fst dict_set]. intros H.
  apply andb_true_iff in H as [Hk Hd].
  destruct (key_eqb (KStr s) k); cbn [forallb fst]; rewrite Hk; cbn [andb].
  - exact Hd.
  - now apply IH.
Qed.

Lemma enumerate_sum_ignores (self : InferenceByEnumeration) (y : Var)
    (rest : list Var) (e1 e2 : dict) :
  parents y = [] ->
  (forall a b, name_keyed a = true -> name_keyed b = true ->
               enumerate_all_rev self rest a = enumerate_all_rev self rest b) ->
  forall (states : list Z) (ya yb : dict) (summ : Q),
    name_keyed ya = true -> name_keyed yb = true ->
    enumerate_sum self y rest e1 states ya summ
    = enumerate_sum self y rest e2 states yb summ.
Proof.
  intros Hp IH. induction states as [|s states IHs]; intros ya yb summ Ha Hb.
  - reflexivity.
  - cbn [enumerate_sum].
    rewrite (probability_of_int_agree y s e1 e2)
      by (rewrite Hp; intros q []).
    destruct (probability_of_int y s e2) as [pr|e]; [|reflexivity].
    cbn [bind]. rewrite (IH ya yb Ha Hb).
    destruct (enumerate_all_rev self rest yb) as [r|e]; [|reflexivity].
    cbn [bind]. apply IHs; now apply name_keyed_set.
Qed.

Lemma enumerate_all_rev_ignores (self : InferenceByEnumeration)
    (rvars : list Var) :
  Forall (fun v => parents v = []) rvars ->
  forall e1 e2, name_keyed e1 = true -> name_keyed e2 = true ->
    enumerate_all_rev self rvars e1 = enumerate_all_rev self rvars e2.
Proof.
  induction rvars as [|y rest IH]; intros HF e1 e2 H1 H2; [reflexivity|].
  inversion HF as [|? ? Hy Hrest]; subst.
  rewrite !enumerate_all_rev_cons.
  rewrite (name_keyed_no_instance e1 y H1), (name_keyed_no_instance e2 y H2).
  destruct (get_parents self y) as [ps|e]; [|reflexivity]. cbn [bind].
  apply enumerate_sum_ignores; auto.
Qed.

(** X15.  Over variables without parents, an evidence keyed by names has no
    effect on [_enumerate_all]: observing a variable, in any state, gives
    the outcome that no evidence gives. *)
Theorem enumerate_all_ignores_named_evidence :
  forall (self : InferenceByEnumeration) (vars : list Var) (e1 e2 : dict),
    Forall (fun v => parents v = []) vars ->
    name_keyed e1 = true ->
    name_keyed e2 = true ->
    _enumerate_all self vars e1 = _enumerate_all self vars e2.
Proof.
  intros self vars e1 e2 HF H1 H2. unfold _enumerate_all.
  rewrite (enumerate_all_rev_ignores self (rev vars)) with (e2 := e2); auto.
  apply Forall_rev. exact HF.
Qed.

Lemma enumerate_all_ignores_named_evidence_witness :
  _enumerate_all single_engine [A] [(KStr "A", VInt 0)]
  = _enumerate_all single_engine [A] [].
Proof.
  apply enumerate_all_ignores_named_evidence;
    [repeat constructor | reflexivity | reflexivity].
Defined.

(** ** Normalised weights *)

Lemma Qadd_nonneg (x y : Q) : (0 <= x -> 0 <= y -> 0 <= x + y)%Q.
Proof.
  intros Hx Hy. apply (Qle_trans _ (0 + 0)%Q); [discriminate|].
  now apply Qplus_le_compat.
Qed.

Lemma qsum_nonneg (ws : list Q) :
  (forall w, In w ws -> (0 <= w)%Q) -> (0 <= qsum ws)%Q.
Proof.
  induction ws as [|x ws IH]; intros H; unfold qsum; cbn [fold_right].
  - apply Qle_refl.
  - fold (qsum ws). apply Qadd_nonneg.
    + apply H. now left.
    + apply IH. intros w Hw. apply H. now right.
Qed.

Lemma qsum_bounds_entry (ws : list Q) (w : Q) :
  (forall x, In x ws -> (0 <= x)%Q) -> In w ws -> (w <= qsum ws)%Q.
Proof.
  induction ws as [|x ws IH]; intros H Hin; [destruct Hin|].
  unfold qsum. cbn [fold_right]. fold (qsum ws).
  assert (Hx : (0 <= x)%Q) by (apply H; now left).
  assert (Hs : (0 <= qsum ws)%Q).
  { apply qsum_nonneg. intros y Hy. apply H. now right. }
  destruct Hin as [->|Hin].
  - apply (Qle_trans _ (w + 0)%Q).
    + rewrite Qplus_0_r. apply Qle_refl.
    + apply Qplus_le_compat; [apply Qle_refl | exact Hs].
  - apply (Qle_trans _ (0 + w)%Q).
    + rewrite Qplus_0_l. apply Qle_refl.
    + apply Qplus_le_compat; [exact Hx|].
      apply IH; [|exact Hin]. intros y Hy. apply H. now right.
Qed.

Lemma py_sum_positive (ws : list Q) :
  (forall w, In w ws -> (0 <= w)%Q) ->
  ~ (py_sum ws == 0)%Q -> (0 < py_sum ws)%Q.
Proof.
  intros Hpos Hz.
  assert (H0 : (0 <= py_sum ws)%Q).
  { rewrite py_sum_qsum. now apply qsum_nonneg. }
  apply Qle_lt_or_eq in H0 as [H0|H0]; [exact H0|].
  exfalso. apply Hz. symmetry. exact H0.
Qed.

(** X16.  For weights that are not negative and do not sum to 0,
    [normalize] returns entries between 0 and 1. *)
Theorem normalize_entries_are_probabilities :
  forall ws : list Q,
    (forall w, In w ws -> (0 <= w)%Q) ->
    ~ (py_sum ws == 0)%Q ->
    exists qs : list Q,
      normalize ws = Ok qs /\
      forall q, In q qs -> (0 <= q <= 1)%Q.
Proof.
  intros ws Hpos Hz. eexists. split.
  - unfold normalize. now apply normalize_loop_ok.
  - intros q Hq. apply in_map_iff in Hq as [w [<- Hw]].
    rewrite scaled_entry by exact Hz.
    pose proof (py_sum_positive ws Hpos Hz) as Hs.
    split.
    + apply Qle_shift_div_l; [exact Hs|]. rewrite Qmult_0_l. now apply Hpos.
    + apply Qle_shift_div_r; [exact Hs|]. rewrite Qmult_1_l.
      rewrite py_sum_qsum. now apply qsum_bounds_entry.
Qed.

Lemma normalize_entries_are_probabilities_witness :
  exists qs : list Q,
    normalize [1 # 2; 3 # 2]%Q = Ok qs /\
    forall q, In q qs -> (0 <= q <= 1)%Q.
Proof.
  apply normalize_entries_are_probabilities.
  - intros w [<-|[<-|[]]]; discriminate.
  - discriminate.
Defined.

(** ** The shape of an answer *)

Lemma normalize_loop_length (z : Q) (ws : list Q) :
  forall qs, normalize_loop z ws = Ok qs -> length qs = length ws.
Proof.
  induction ws as [|w ws IH]; intros qs; simpl.
  - intros H. injection H as <-. reflexivity.
  - destruct (fdiv (fmul w 1) z) as [q|e]; [|discriminate]. cbn [bind].
    destruct (normalize_loop z ws) as [qs'|e]; [|discriminate]. cbn [bind].
    intros H. injection H as <-. simpl. now rewrite (IH qs').
Qed.

Lemma list_insert_length {T : Type} (i : Z) (x : T) (l : list T) :
  length (list_insert i x l) = S (length l).
Proof.
  unfold list_insert. rewrite length_app. simpl.
  rewrite <- (firstn_skipn (Z.to_nat i) l) at 3. rewrite length_app. lia.
Qed.

Lemma enumeration_ask_loop_length (self : InferenceByEnumeration)
    (x_variable : Var) (states : list Z) :
  forall (query_of_x : list Q) (new_vars : list Var) (x_evidence : dict)
         (r : list Q),
    enumeration_ask_loop self x_variable states query_of_x new_vars x_evidence
    = Ok r ->
    length r = (length query_of_x + length states)%nat.
Proof.
  induction states as [|s states IH]; intros q nv ev r; simpl.
  - intros H. injection H as <-. lia.
  - destruct (_enumerate_all self nv ev) as [[w nv']|e]; [|discriminate].
    cbn [bind]. intros H. apply IH in H.
    rewrite list_insert_length in H. lia.
Qed.

(** X19.  An answer of [_enumeration_ask] has one entry per state of the
    query variable, which is registered under the name asked for. *)
Theorem enumeration_ask_one_entry_per_state :
  forall (self : InferenceByEnumeration) (X : string) (evidence : dict)
         (q : list Q),
    _enumeration_ask self X evidence = Ok q ->
    exists x_variable : Var,
      vdict_get X (variables (bayesian_network self)) = Some x_variable /\
      length q = Z.to_nat (no_states x_variable).
Proof.
  intros self X evidence q. unfold _enumeration_ask.
  destruct (vdict_get X (variables (bayesian_network self))) as [xv|];
    [|discriminate].
  destruct (topo_order self) as [order|]; [|discriminate].
  destruct (enumeration_ask_loop self xv (range (no_states xv)) [] order
              evidence) as [ws|e] eqn:E; [|discriminate].
  cbn [bind]. intros H. exists xv. split; [reflexivity|].
  unfold normalize in H. apply normalize_loop_length in H.
  apply enumeration_ask_loop_length in E.
  rewrite H, E. unfold range. now rewrite length_map, length_seq.
Qed.

Lemma enumeration_ask_one_entry_per_state_witness :
  _enumeration_ask single_engine "A" [] = Ok [1 # 2; 1 # 2]%Q /\
  exists x_variable : Var,
    vdict_get "A" (variables (bayesian_network single_engine))
    = Some x_variable /\
    length [1 # 2; 1 # 2]%Q = Z.to_nat (no_states x_variable).
Proof.
  split; [reflexivity|].
  apply (enumeration_ask_one_entry_per_state single_engine "A" []).
  reflexivity.
Defined.

(** X20.  What [query] returns is a new [Variable] of the name asked for,
    without parents, whose table is one column: the answer of
    [_enumeration_ask], one row per state of the registered variable. *)
Theorem query_returns_one_column :
  forall (self : InferenceByEnumeration) (addr : nat) (var : string)
         (evidence : dict) (v : Var),
    query self addr var evidence = Ok v ->
    exists (q : list Q) (x_variable : Var),
      _enumeration_ask self var evidence = Ok q /\
      vdict_get var (variables (bayesian_network self)) = Some x_variable /\
      v = mkVariable addr var (no_states x_variable)
                     (map (fun w => [w]) q) [] [] /\
      Z.of_nat (length q) = no_states x_variable.
Proof.
  intros self addr var evidence v. unfold query.
  destruct (_enumeration_ask self var evidence) as [q|e]; [|discriminate].
  cbn [bind].
  destruct (vdict_get var (variables (bayesian_network self))) as [xv|];
    [|discriminate].
  intros H. apply Variable_init_ok in H as [-> [Hrows _]].
  exists q, xv. repeat split; auto. now rewrite length_map in Hrows.
Qed.

Lemma query_returns_one_column_witness :
  query single_engine 9 "A" []
  = Ok (mkVariable 9 "A" 2 [[1 # 2]; [1 # 2]]%Q [] []) /\
  exists (q : list Q) (x_variable : Var),
    _enumeration_ask single_engine "A" [] = Ok q /\
    vdict_get "A" (variables (bayesian_network single_engine))
    = Some x_variable /\
    mkVariable 9 "A" 2 [[1 # 2]; [1 # 2]]%Q [] []
    = mkVariable 9 "A" (no_states x_variable) (map (fun w => [w]) q) [] [] /\
    Z.of_nat (length q) = no_states x_variable.
Proof.
  split; [reflexivity|].
  apply (query_returns_one_column single_engine 9 "A" []).
  reflexivity.
Defined.
